(** * Mammot: option inference, command registry and dispatch

  A shallow embedding of [packages/core/src/decorators.ts] and
  [packages/core/src/mammot.ts].

  - [Js]   : the fragment of the JavaScript object model the two files
             rely on (classes, prototype chains, [instanceof], the
             [constructor] property, truthiness of strings).
  - [Cls]  : the classes the sources name.
  - [Decorators] : [option], [forced] and the metadata store they write.
  - [Client]     : the [Mammot] class: [addCommands], [login] and the two
             listeners [login] installs.
  - [Examples]   : sample classes, handlers and clients.

  The properties follow the modules. *)

From stdpp Require Import base strings list gmap sorting.

Local Open Scope string_scope.
Local Open Scope list_scope.
Local Open Scope stdpp_scope.

(* ===================================================================== *)
(** ** JavaScript values *)
(* ===================================================================== *)

Module Js.

(** A class is identified by its name and its [extends] chain. *)
Inductive Class : Type :=
| Root (n : string)
| Extends (n : string) (super : Class).

Definition className (c : Class) : string :=
  match c with Root n => n | Extends n _ => n end.

#[global] Instance Class_eq_dec : EqDecision Class.
Proof. solve_decision. Defined.

Fixpoint Class_encode (c : Class) : list string :=
  match c with
  | Root n => [n]
  | Extends n s => n :: Class_encode s
  end.

Fixpoint Class_decode (l : list string) : Class :=
  match l with
  | [] => Root ""
  | [n] => Root n
  | n :: l' => Extends n (Class_decode l')
  end.

#[global] Instance Class_countable : Countable Class.
Proof.
  apply (inj_countable' Class_encode Class_decode).
  intros c. induction c as [n|n s IH]; [reflexivity|].
  simpl. rewrite IH. destruct s; reflexivity.
Defined.

(** The objects that occur: the constructor function of a class, its
    [prototype] object, and instances (which carry a [message], as
    [Error] objects do). *)
Inductive JsObject : Type :=
| Ctor (c : Class)
| Proto (c : Class)
| Instance (c : Class) (message : string).

#[global] Instance JsObject_eq_dec : EqDecision JsObject.
Proof. solve_decision. Defined.

Definition JsObject_encode (o : JsObject) : Class + (Class + Class * string) :=
  match o with
  | Ctor c => inl c
  | Proto c => inr (inl c)
  | Instance c m => inr (inr (c, m))
  end.

Definition JsObject_decode (x : Class + (Class + Class * string)) : JsObject :=
  match x with
  | inl c => Ctor c
  | inr (inl c) => Proto c
  | inr (inr (c, m)) => Instance c m
  end.

#[global] Instance JsObject_countable : Countable JsObject.
Proof.
  apply (inj_countable' JsObject_encode JsObject_decode).
  intros []; reflexivity.
Defined.

Inductive JsValue : Type :=
| Undefined
| Str (s : string)
| Obj (o : JsObject).

#[global] Instance JsValue_eq_dec : EqDecision JsValue.
Proof. solve_decision. Defined.

Definition Object : Class := Root "Object".
Definition Function : Class := Root "Function".

(** [proto_line c] is [c.prototype] followed by everything above it;
    every line ends in [Object.prototype]. *)
Fixpoint proto_line (c : Class) : list JsObject :=
  match c with
  | Root n => if String.eqb n "Object" then [Proto c] else [Proto c; Proto Object]
  | Extends _ s => Proto c :: proto_line s
  end.

(** [ctor_line c] is the constructor function [c] followed by everything
    above it: the constructors of its superclasses, then
    [Function.prototype], then [Object.prototype]. *)
Fixpoint ctor_line (c : Class) : list JsObject :=
  match c with
  | Root _ => Ctor c :: proto_line Function
  | Extends _ s => Ctor c :: ctor_line s
  end.

(** The chain of [[Prototype]] links starting above [o]. *)
Definition prototypeChain (o : JsObject) : list JsObject :=
  match o with
  | Ctor c => tail (ctor_line c)
  | Proto c => tail (proto_line c)
  | Instance c _ => proto_line c
  end.

(** [v instanceof F]: a primitive is an instance of nothing; an object is
    an instance when [F.prototype] is on its prototype chain. *)
Definition instanceOf (v : JsValue) (F : Class) : bool :=
  match v with
  | Obj o => bool_decide (Proto F ∈ prototypeChain o)
  | _ => false
  end.

(** Only prototype objects own a [constructor] property. *)
Definition ownConstructor (o : JsObject) : option Class :=
  match o with
  | Proto c => Some c
  | _ => None
  end.

(** [o.constructor]: the first [constructor] found on [o] or up its
    chain. *)
Definition constructorOf (o : JsObject) : Class :=
  default Object (head (omap ownConstructor (o :: prototypeChain o))).

(** Truthiness of a string: every string but the empty one. *)
Definition truthy (s : string) : bool := negb (String.eqb s "").

(** [error.message]: the own property of an instance; a prototype object
    below [Error.prototype] inherits the empty string. *)
Definition messageOf (v : JsValue) : string :=
  match v with
  | Obj (Instance _ m) => m
  | _ => ""
  end.

(** [c] is declared below [C]: [C] is on the [extends] chain of [c],
    [c] itself excluded. *)
Fixpoint below (C c : Class) : bool :=
  match c with
  | Root _ => false
  | Extends _ s => bool_decide (s = C) || below C s
  end.

End Js.

(* ===================================================================== *)
(** ** The classes named by the sources *)
(* ===================================================================== *)

Module Cls.
Import Js.

Definition Error : Class := Root "Error".
Definition TypeError : Class := Extends "TypeError" Error.
Definition String : Class := Root "String".
Definition Boolean : Class := Root "Boolean".
Definition Number : Class := Root "Number".
Definition Date : Class := Root "Date".

(** discord.js *)
Definition Base : Class := Root "Base".
Definition Role : Class := Extends "Role" Base.
Definition User : Class := Extends "User" Base.
Definition GuildMember : Class := Extends "GuildMember" Base.
Definition Channel : Class := Extends "Channel" Base.
Definition GuildChannel : Class := Extends "GuildChannel" Channel.
Definition TextChannel : Class :=
  Extends "TextChannel" (Extends "BaseGuildTextChannel" GuildChannel).
Definition VoiceChannel : Class :=
  Extends "VoiceChannel" (Extends "BaseGuildVoiceChannel" GuildChannel).

(** ./command and ./errors *)
Definition Command : Class := Root "Command".
Definition MammotError : Class := Extends "MammotError" Error.

End Cls.

(* ===================================================================== *)
(** ** decorators.ts *)
(* ===================================================================== *)

Module Decorators.
Import Js.

(** The string literals of discord.js' [ApplicationCommandOptionType]. *)
Inductive ApplicationCommandOptionType : Type :=
| SUB_COMMAND | SUB_COMMAND_GROUP | STRING | INTEGER | BOOLEAN
| USER | CHANNEL | ROLE | MENTIONABLE | NUMBER.

#[global] Instance ApplicationCommandOptionType_eq_dec :
  EqDecision ApplicationCommandOptionType.
Proof. solve_decision. Defined.

(** The literal itself, as it is interpolated into messages and compared
    by [includes]. *)
Definition literal (t : ApplicationCommandOptionType) : string :=
  match t with
  | SUB_COMMAND => "SUB_COMMAND"
  | SUB_COMMAND_GROUP => "SUB_COMMAND_GROUP"
  | STRING => "STRING"
  | INTEGER => "INTEGER"
  | BOOLEAN => "BOOLEAN"
  | USER => "USER"
  | CHANNEL => "CHANNEL"
  | ROLE => "ROLE"
  | MENTIONABLE => "MENTIONABLE"
  | NUMBER => "NUMBER"
  end.

(** [Partial<OptionConfig>]: every key of [ApplicationCommandOption] is
    optional, and so is [force]. *)
Record OptionConfig : Type := mkOptionConfig {
  cfg_type : option ApplicationCommandOptionType;
  cfg_force : option bool;
  cfg_name : option string;
  cfg_description : option string;
  cfg_required : option bool;
  cfg_choices : option (list (string * string));
  cfg_channelTypes : option (list string);
}.

(** [{}], the default of [config]. *)
Definition emptyConfig : OptionConfig :=
  mkOptionConfig None None None None None None None.

(** [{...config, force: b}] *)
Definition withForce (b : bool) (config : OptionConfig) : OptionConfig :=
  mkOptionConfig (cfg_type config) (Some b) (cfg_name config)
    (cfg_description config) (cfg_required config) (cfg_choices config)
    (cfg_channelTypes config).

(** [{...config, type: t}] *)
Definition withType (t : ApplicationCommandOptionType) (config : OptionConfig)
  : OptionConfig :=
  mkOptionConfig (Some t) (cfg_force config) (cfg_name config)
    (cfg_description config) (cfg_required config) (cfg_choices config)
    (cfg_channelTypes config).

(** [{...config, name: n}] *)
Definition withName (n : string) (config : OptionConfig) : OptionConfig :=
  mkOptionConfig (cfg_type config) (cfg_force config) (Some n)
    (cfg_description config) (cfg_required config) (cfg_choices config)
    (cfg_channelTypes config).

Record OptionMetadata : Type := mkOptionMetadata {
  om_name : string;
  om_index : nat;
  om_config : OptionConfig;
}.

(** The key a parameter decorator receives: [string | symbol]. *)
Inductive PropertyKey : Type :=
| PString (s : string)
| PSymbol (description : string).

Definition propertyToString (p : PropertyKey) : string :=
  match p with
  | PString s => s
  | PSymbol d => "Symbol(" +:+ d +:+ ")"
  end.

(** [property !== 'run'] *)
Definition notRun (p : PropertyKey) : bool :=
  match p with
  | PString s => negb (String.eqb s "run")
  | PSymbol _ => true
  end.

(** [new Error(m)] and [new TypeError(m)] *)
Definition newError (m : string) : JsValue := Obj (Instance Cls.Error m).
Definition newTypeError (m : string) : JsValue := Obj (Instance Cls.TypeError m).

(** A computation that either throws a value or returns. *)
Definition Throws (A : Type) : Type := JsValue + A.

(** [!config.force] is false only for [force: true]. *)
Definition forceOn (config : OptionConfig) : bool :=
  match cfg_force config with
  | Some b => b
  | None => false
  end.

Definition isNumOrInt (val : string) : bool :=
  bool_decide (val ∈ ["NUMBER"; "INTEGER"]).

(** [type === C] for a class [C]. *)
Definition isClass (type : JsValue) (C : Class) : bool :=
  bool_decide (type = Obj (Ctor C)).

Definition missingNumberType : string :=
  "You must specify a type for numbers in the config!".

Definition badNumberType (t : ApplicationCommandOptionType) : string :=
  "Number type must be either NUMBER or INTEGER. Received " +:+ literal t.

Definition unsupported : string := "Unsupported data type.".

Definition mismatch (found inferred : ApplicationCommandOptionType) : string :=
  "Type mismatch. Found " +:+ literal found +:+ " in the config, but inferred "
  +:+ literal inferred +:+ "! Enable force mode in if this was a mistake.".

(** The [switch (true)] of [option]: the cases are tried top to bottom
    and the first whose test is [true] is taken. *)
Definition chooseType (type : JsValue) (config : OptionConfig)
  : Throws ApplicationCommandOptionType :=
  if isClass type Cls.String then inr STRING
  else if isClass type Cls.Boolean then inr BOOLEAN
  else if isClass type Cls.Number then
    match cfg_type config with
    | None => inl (newTypeError missingNumberType)
    | Some t =>
        if negb (truthy (literal t)) then inl (newTypeError missingNumberType)
        else if negb (isNumOrInt (literal t)) then inl (newTypeError (badNumberType t))
        else inr t
    end
  else if isClass type Cls.Role then inr ROLE
  else if isClass type Cls.User || isClass type Cls.GuildMember then inr USER
  else if instanceOf type (constructorOf (Ctor Cls.GuildChannel)) then inr CHANNEL
  else inl (newTypeError unsupported).

(** The classes the cases above the channel case compare against. *)
Definition namedTypes : list Class :=
  [Cls.String; Cls.Boolean; Cls.Number; Cls.Role; Cls.User; Cls.GuildMember].

(** The metadata store: the options collected for each annotated target
    (the prototype object of a command class). *)
Abbreviation Store := (gmap JsObject (list OptionMetadata)).

Definition entry (store : Store) (target : JsObject) : list OptionMetadata :=
  default [] (store !! target).

(** Modelled from the spec: [addOption] of [./reflection], which is not
    among the sources. "On attachment: invoke the Type Inference Engine,
    then append the resulting OptionDescriptor to the class's Metadata
    Store entry"; the entry is "created lazily on first annotation
    write". *)
Definition addOption (target : JsObject) (o : OptionMetadata) (store : Store)
  : Store :=
  <[target := entry store target ++ [o]]> store.

Section WithReflection.

(** [getParamType] of [./reflection]: the declared type of parameter
    [index] of [run], as the compiler recorded it. *)
Variable getParamType : JsObject -> nat -> JsValue.

Definition wrongMethod (property : PropertyKey) : string :=
  "The @option() decorator can only be used on the .run method. You used it on "
  +:+ propertyToString property.

Definition wrongClass (target : JsObject) : string :=
  "You can only use @option() on a class extending Command! You used "
  +:+ className (constructorOf target).

(** [option(name, config)]: the parameter decorator, applied to
    [target], [property] and [index], acting on the metadata store.
    (The underscore keeps the name apart from the type [option].) *)
Definition option_ (name : string) (config : OptionConfig)
    (target : JsObject) (property : PropertyKey) (index : nat)
    (store : Store) : Throws Store :=
  if notRun property then inl (newError (wrongMethod property))
  else if negb (instanceOf (Obj target) Cls.Command) then
    inl (newError (wrongClass target))
  else
    let type := getParamType target index in
    match chooseType type config with
    | inl e => inl e
    | inr chosenType =>
        let recorded :=
          addOption target
            (mkOptionMetadata name index (withType chosenType config)) store in
        match cfg_type config with
        | Some t =>
            if truthy (literal t) && bool_decide (chosenType ≠ t)
               && negb (forceOn config)
            then inl (newTypeError (mismatch t chosenType))
            else inr recorded
        | None => inr recorded
        end
    end.

(** [forced(name, config)] *)
Definition forced (name : string) (config : OptionConfig)
  : JsObject -> PropertyKey -> nat -> Store -> Throws Store :=
  option_ name (withForce true config).

End WithReflection.

Record CommandMetadata : Type := mkCommandMetadata {
  cm_name : string;
  cm_description : string;
  cm_defaultPermission : option bool;
}.

(** [Partial<Except<CommandMetadata, 'name' | 'description'>>]: the one
    key left is [defaultPermission]. *)
Record CommandConfig : Type := mkCommandConfig {
  cc_defaultPermission : option bool;
}.

Definition notACommand : string :=
  "You can only use @name() on a class that extends Command!".

Section WithClassStore.

(** [addCommandData] of [./reflection], acting on whatever holds the
    class-level metadata. *)
Variable ClassStore : Type.
Variable addCommandData : JsObject -> CommandMetadata -> ClassStore -> ClassStore.

(** [data(name, description, config)]: the class decorator, applied to
    the class [target]; [target.prototype] is [Proto target]. *)
Definition data (name description : string) (config : CommandConfig)
    (target : Class) (store : ClassStore) : Throws ClassStore :=
  let isCommand := instanceOf (Obj (Proto target)) Cls.Command in
  if negb isCommand then inl (newTypeError notACommand)
  else
    inr (addCommandData (Ctor target)
           (mkCommandMetadata name description (cc_defaultPermission config))
           store).

End WithClassStore.

End Decorators.

(* ===================================================================== *)
(** ** mammot.ts *)
(* ===================================================================== *)

Module Client.
Import Js Decorators.

Definition Snowflake : Type := string.

(** What the listener reads of an incoming interaction. *)
Record Interaction : Type := mkInteraction {
  isCommand : bool;
  commandName : string;
  rawOptionBag : list (string * JsValue);
}.

(** One entry of the list handed to [application.commands.set]. *)
Record ApplicationCommandData : Type := mkApplicationCommandData {
  acd_options : list OptionConfig;
  acd_name : string;
  acd_description : string;
}.

(** What the client does to the outside. *)
Inductive Effect : Type :=
| Warn (error : JsValue)
| Reply (ephemeral : bool) (content : string)
| CommandsSet (mapped : list ApplicationCommandData) (guildId : option Snowflake)
| ReadyCallback.

(** A command instance: [run] performs effects of its own and then
    either resolves ([None]) or rejects with the value thrown. *)
Record Command : Type := mkCommand {
  run : Interaction -> list JsValue -> list Effect * option JsValue;
}.

Inductive Event : Type :=
| Called (command : Command) (interaction : Interaction) (args : list JsValue)
| Did (e : Effect).

(** Arrays of option metadata live in a heap and are held by reference. *)
Definition Ref : Type := nat.
Abbreviation Heap := (gmap Ref (list OptionMetadata)).

Definition array (h : Heap) (r : Ref) : list OptionMetadata :=
  default [] (h !! r).

Record ParsedCommand : Type := mkParsedCommand {
  pc_name : string;
  pc_description : string;
  pc_command : Command;
  pc_options : Ref;
}.

(** A [Map<string, V>]: entries in insertion order, one per key. *)
Definition JsMap (V : Type) : Type := list (string * V).

Fixpoint map_get {V : Type} (k : string) (m : JsMap V) : option V :=
  match m with
  | [] => None
  | (k', v) :: m' => if String.eqb k k' then Some v else map_get k m'
  end.

(** [set] overwrites the value of a key that is present, in place, and
    appends a new entry otherwise. *)
Fixpoint map_set {V : Type} (k : string) (v : V) (m : JsMap V) : JsMap V :=
  match m with
  | [] => [(k, v)]
  | (k', v') :: m' =>
      if String.eqb k k' then (k, v) :: m' else (k', v') :: map_set k v m'
  end.

Definition map_keys {V : Type} (m : JsMap V) : list string := m.*1.
Definition map_values {V : Type} (m : JsMap V) : list V := m.*2.

Record Mammot : Type := mkMammot {
  commands : JsMap ParsedCommand;
  developmentGuildId : Snowflake;
  fallbackError : option string;
  isDev : bool;
}.

Definition setCommands (cs : JsMap ParsedCommand) (this : Mammot) : Mammot :=
  mkMammot cs (developmentGuildId this) (fallbackError this) (isDev this).

(** A command class: [new Cmd(client)] returns an instance or throws. *)
Definition ConstructableCommand : Type := Mammot -> Throws Command.

(** What [readCommand] hands back; [options] is a reference. *)
Record CommandData : Type := mkCommandData {
  cd_name : string;
  cd_description : string;
  cd_options : Ref;
}.

Section WithCollaborators.

(** [readCommand] of [./reflection] and [Command.resolveMetadata] of
    [./command]; either may throw. *)
Variable readCommand : Command -> Throws CommandData.
Variable resolveMetadata :
  Interaction -> list OptionMetadata -> Throws (list JsValue).

(** Every command of a list can be read. *)
Definition readable (mapped : list Command) : Prop :=
  forall c, c ∈ mapped -> exists data, readCommand c = inr data.

(** The object literal [{description, name, options, command}] stored
    for a command. *)
Definition parsed (command : Command) (data : CommandData) : ParsedCommand :=
  mkParsedCommand (cd_name data) (cd_description data) command (cd_options data).

(** [commands.map(Cmd => new Cmd(this))] *)
Fixpoint construct (this : Mammot) (cmds : list ConstructableCommand)
  : Throws (list Command) :=
  match cmds with
  | [] => inr []
  | Cmd :: rest =>
      match Cmd this with
      | inl e => inl e
      | inr command =>
          match construct this rest with
          | inl e => inl e
          | inr more => inr (command :: more)
          end
      end
  end.

(** The [for ... of mapped] loop of [addCommands]; the result pairs the
    client as the loop left it with the value thrown, if any. *)
Fixpoint register (mapped : list Command) (this : Mammot)
  : Mammot * option JsValue :=
  match mapped with
  | [] => (this, None)
  | command :: rest =>
      match readCommand command with
      | inl e => (this, Some e)
      | inr data =>
          register rest
            (setCommands
               (map_set (cd_name data) (parsed command data) (commands this))
               this)
      end
  end.

Definition addCommands (cmds : list ConstructableCommand) (this : Mammot)
  : Mammot * option JsValue :=
  match construct this cmds with
  | inl e => (this, Some e)
  | inr mapped => register mapped this
  end.

(** [{...option.config, name: option.name}] *)
Definition flatten (o : OptionMetadata) : OptionConfig :=
  withName (om_name o) (om_config o).

(** The [.map(command => ...)] over [this.commands.values()] at the top
    of [login]. [reverse()] reverses the array a command refers to, in
    the heap, and returns that array; [.map] then builds a new one. *)
Fixpoint mapCommands (values : list ParsedCommand) (h : Heap)
  : Heap * list ApplicationCommandData :=
  match values with
  | [] => (h, [])
  | command :: rest =>
      let reversed := reverse (array h (pc_options command)) in
      let h1 := <[pc_options command := reversed]> h in
      let options := flatten <$> reversed in
      let (h2, more) := mapCommands rest h1 in
      (h2, mkApplicationCommandData options (pc_name command)
             (pc_description command) :: more)
  end.

(** The [interactionCreate] listener. It reads [this.commands] and the
    arrays as they are when the interaction arrives. *)
Definition interactionCreate (this : Mammot) (h : Heap)
    (interaction : Interaction) : list Event * option JsValue :=
  if negb (isCommand interaction) then ([], None)
  else
    match map_get (commandName interaction) (commands this) with
    | None => ([], None)
    | Some found =>
        let command := pc_command found in
        let options := array h (pc_options found) in
        let '(log, thrown) :=
          match resolveMetadata interaction options with
          | inl e => ([], Some e)
          | inr args =>
              let (effects, outcome) := run command interaction args in
              (Called command interaction args :: (Did <$> effects), outcome)
          end in
        match thrown with
        | None => (log, None)
        | Some error =>
            let message :=
              if instanceOf error Cls.MammotError then messageOf error
              else
                match fallbackError this with
                | Some fallback =>
                    if truthy fallback then fallback
                    else "Something went wrong."
                | None => "Something went wrong."
                end in
            let warned :=
              if negb (instanceOf error Cls.MammotError)
              then [Did (Warn error)] else [] in
            (log ++ warned ++ [Did (Reply true message)], None)
        end
    end.

(** What awaiting [application.commands.set] and awaiting
    [options.ready] come to: [None] when the promise resolves, the
    reason when it rejects. *)
Variable commandsSet :
  list ApplicationCommandData -> option Snowflake -> option JsValue.
Variable optionsReady : option JsValue.

(** The [ready] listener, closed over the [mapped] list of [login]: what
    it does and, when one of its two awaits rejects, the reason it
    rejects with. A rejected sync ends the listener before
    [options.ready] is called. *)
Definition ready (this : Mammot) (mapped : list ApplicationCommandData)
  : list Effect * option JsValue :=
  let '(submitted, rejected) :=
    if isDev this
    then (CommandsSet mapped (Some (developmentGuildId this)),
          commandsSet mapped (Some (developmentGuildId this)))
    else (CommandsSet mapped None, commandsSet mapped None) in
  match rejected with
  | Some reason => ([submitted], Some reason)
  | None => ([submitted; ReadyCallback], optionsReady)
  end.

(** What [login] leaves behind: the heap after the reversals and the
    list its [ready] listener will submit. *)
Definition login (this : Mammot) (h : Heap)
  : Heap * list ApplicationCommandData :=
  mapCommands (map_values (commands this)) h.

End WithCollaborators.

(** What [Mammot.client] reads of its argument: [MammotOptions] and the
    optional [dev]. *)
Record MammotOptions : Type := mkMammotOptions {
  developmentGuild : Snowflake;
  opt_fallbackError : option string;
  dev : option bool;
}.

(** [Mammot.client(options)], with [process.env.NODE_ENV] as it is when
    the call is made. The default of [dev] is taken only when [dev] is
    absent; the constructor starts with an empty [Map]. *)
Definition client (options : MammotOptions) (NODE_ENV : option string) : Mammot :=
  let dev :=
    match dev options with
    | Some b => b
    | None =>
        match NODE_ENV with
        | Some v => String.eqb v "development"
        | None => false
        end
    end in
  mkMammot [] (developmentGuild options) (opt_fallbackError options) dev.

Section Lifetime.

Variable readCommand : Command -> Throws CommandData.

(** The clients a program can hold: one made by [Mammot.client], then
    any number of [addCommands] calls, each of which may have thrown. *)
Inductive built : Mammot -> Prop :=
| built_client (options : MammotOptions) (NODE_ENV : option string) :
    built (client options NODE_ENV)
| built_addCommands (cmds : list ConstructableCommand) (this : Mammot) :
    built this -> built (fst (addCommands readCommand cmds this)).

End Lifetime.

End Client.

(* ===================================================================== *)
(** ** Sample declarations *)
(* ===================================================================== *)

Module Examples.
Import Js Decorators Client.

(** [class Ping extends Command] *)
Definition Ping : Class := Extends "Ping" Cls.Command.

(** A compiler record in which every parameter of [run] has type [T]. *)
Definition allOfType (T : Class) : JsObject -> nat -> JsValue :=
  fun _ _ => Obj (Ctor T).

(** [{type: t}] and [{type: t, force: true}] *)
Definition typed (t : ApplicationCommandOptionType) : OptionConfig :=
  withType t emptyConfig.
Definition typedForced (t : ApplicationCommandOptionType) : OptionConfig :=
  withForce true (withType t emptyConfig).

(** Handlers: one that resolves, one that rejects with a [MammotError],
    one that rejects with a [TypeError]. *)
Definition quiet : Command := mkCommand (fun _ _ => ([], None)).
Definition refusing : Command :=
  mkCommand (fun _ _ =>
    ([], Some (Obj (Instance Cls.MammotError "Not enough permissions")))).
Definition failing : Command :=
  mkCommand (fun _ _ => ([], Some (newTypeError "x is not a function"))).

(** An option resolver that looks each option up by name in the bag. *)
Definition resolveByName (interaction : Interaction)
    (options : list OptionMetadata) : Throws (list JsValue) :=
  inr ((fun o => default Undefined
                   (map_get (om_name o) (rawOptionBag interaction)))
         <$> options).

(** A reader that finds every command under the name [ping], with its
    options in the array at reference [0]. *)
Definition readPing (command : Command) : Throws CommandData :=
  inr (mkCommandData "ping" "pong" 0).

(** Options of a two-parameter [run], in the order the decorators of
    the parameters ran: the last parameter first. *)
Definition collected : list OptionMetadata :=
  [ mkOptionMetadata "times" 1 (typed INTEGER);
    mkOptionMetadata "reason" 0 (typed STRING) ].

Definition heap0 : Heap := {[ 0 := collected ]}.

Definition client (handler : Command) (fallback : option string) : Mammot :=
  mkMammot [("ping", mkParsedCommand "ping" "pong" handler 0)]
    "guild" fallback true.

Definition pingEvent : Interaction :=
  mkInteraction true "ping" [("reason", Str "hi"); ("times", Str "2")].

Definition pongEvent : Interaction :=
  mkInteraction true "pong" [].

(** A reader that finds two kinds of command under two names, [a] for
    those whose handler resolves and [b] for the others, and both with
    their options in the one array at reference [0]. *)
Definition readShared (command : Command) : Throws CommandData :=
  match snd (run command pingEvent []) with
  | None => inr (mkCommandData "a" "first" 0)
  | Some _ => inr (mkCommandData "b" "second" 0)
  end.

(** A client on which one command of each kind was registered. *)
Definition sharing : Mammot :=
  fst (addCommands readShared
         [fun _ => inr quiet; fun _ => inr refusing]
         (Client.client (mkMammotOptions "guild" None None) None)).

(** A sync that resolves, and one that rejects. *)
Definition syncResolves
  : list ApplicationCommandData -> option Snowflake -> option JsValue :=
  fun _ _ => None.
Definition syncRejects
  : list ApplicationCommandData -> option Snowflake -> option JsValue :=
  fun _ _ => Some (newError "Missing Access").

End Examples.

(* ===================================================================== *)
(** * Properties *)
(* ===================================================================== *)

Import Js Decorators Client.

(** A closed decidable proposition that is false, found among the
    hypotheses, ends the proof. *)
Ltac refute_by_decide H :=
  match type of H with
  | ?P => apply (bool_decide_eq_true_2 P) in H; vm_compute in H; discriminate H
  end.

(** ** The object model *)

Lemma literal_truthy (t : ApplicationCommandOptionType) : truthy (literal t) = true.
Proof. destruct t; reflexivity. Qed.

Lemma isNumOrInt_literal (t : ApplicationCommandOptionType) :
  isNumOrInt (literal t) = bool_decide (t ∈ [NUMBER; INTEGER]).
Proof. destruct t; vm_compute; reflexivity. Qed.

Lemma ctor_line_unfold (c : Class) : ctor_line c = Ctor c :: tail (ctor_line c).
Proof. destruct c; reflexivity. Qed.

Lemma ctor_line_first_constructor (c : Class) :
  head (omap ownConstructor (ctor_line c)) = Some Function.
Proof. induction c as [n|n s IH]; [reflexivity|exact IH]. Qed.

(** The [constructor] of any class object is [Function]: a class owns no
    such property, and the first prototype object above it is
    [Function.prototype]. *)
Lemma constructorOf_class (c : Class) : constructorOf (Ctor c) = Function.
Proof.
  unfold constructorOf, prototypeChain.
  rewrite <- ctor_line_unfold, ctor_line_first_constructor. reflexivity.
Qed.

Lemma Function_prototype_above_class (c : Class) :
  Proto Function ∈ tail (ctor_line c).
Proof.
  induction c as [n|n s IH]; simpl.
  - apply list_elem_of_here.
  - rewrite ctor_line_unfold. apply list_elem_of_further, IH.
Qed.

(** Every class object is an instance of [Function]. *)
Lemma class_instanceOf_Function (c : Class) :
  instanceOf (Obj (Ctor c)) Function = true.
Proof. apply bool_decide_eq_true, Function_prototype_above_class. Qed.

(** The last test of the [switch] holds of every class object, whether
    or not the class has anything to do with [GuildChannel]. *)
Lemma channel_test_any_class (c : Class) :
  instanceOf (Obj (Ctor c)) (constructorOf (Ctor Cls.GuildChannel)) = true.
Proof. rewrite constructorOf_class. apply class_instanceOf_Function. Qed.

(** ** The [switch] of [option] *)

Lemma isClass_true (type : JsValue) (C : Class) :
  isClass type C = true <-> type = Obj (Ctor C).
Proof. unfold isClass. apply bool_decide_eq_true. Qed.

Lemma isClass_other (c C : Class) : c ≠ C -> isClass (Obj (Ctor c)) C = false.
Proof. intros H. apply bool_decide_eq_false. congruence. Qed.

(** The rules that name a type, in the order of the source. *)
Lemma chooseType_named (config : OptionConfig) :
  chooseType (Obj (Ctor Cls.String)) config = inr STRING
  /\ chooseType (Obj (Ctor Cls.Boolean)) config = inr BOOLEAN
  /\ chooseType (Obj (Ctor Cls.Role)) config = inr ROLE
  /\ chooseType (Obj (Ctor Cls.User)) config = inr USER
  /\ chooseType (Obj (Ctor Cls.GuildMember)) config = inr USER.
Proof. repeat split. Qed.

Lemma chooseType_Number (config : OptionConfig) :
  chooseType (Obj (Ctor Cls.Number)) config =
  match cfg_type config with
  | None => inl (newTypeError missingNumberType)
  | Some t =>
      if bool_decide (t ∈ [NUMBER; INTEGER]) then inr t
      else inl (newTypeError (badNumberType t))
  end.
Proof.
  unfold chooseType. simpl. destruct (cfg_type config) as [t|]; [|reflexivity].
  rewrite literal_truthy, isNumOrInt_literal. simpl.
  destruct (bool_decide (t ∈ [NUMBER; INTEGER])); reflexivity.
Qed.

(** Every class the earlier rules do not name is taken for a channel. *)
Lemma chooseType_unnamed_class (c : Class) (config : OptionConfig) :
  c ∉ namedTypes -> chooseType (Obj (Ctor c)) config = inr CHANNEL.
Proof.
  intros H. unfold namedTypes in H.
  repeat (apply not_elem_of_cons in H; destruct H as [? H]).
  unfold chooseType.
  rewrite !isClass_other by assumption.
  rewrite channel_test_any_class. reflexivity.
Qed.

(** [GuildChannel] and the classes below it are among them. *)
Lemma chooseType_guild_channels (config : OptionConfig) :
  chooseType (Obj (Ctor Cls.GuildChannel)) config = inr CHANNEL
  /\ chooseType (Obj (Ctor Cls.TextChannel)) config = inr CHANNEL
  /\ chooseType (Obj (Ctor Cls.VoiceChannel)) config = inr CHANNEL.
Proof.
  repeat split; apply chooseType_unnamed_class; intros H; refute_by_decide H.
Qed.

(** The [default] case is reached by no class object at all. *)
Lemma chooseType_class_supported (c : Class) (config : OptionConfig) :
  chooseType (Obj (Ctor c)) config ≠ inl (newTypeError unsupported).
Proof.
  unfold chooseType.
  repeat (match goal with
          | |- context [if ?b then _ else _] => destruct b eqn:?
          | |- context [match cfg_type ?c with _ => _ end] => destruct (cfg_type c)
          end; try discriminate).
  match goal with
  | H : instanceOf _ _ = false |- _ => rewrite channel_test_any_class in H
  end.
  discriminate.
Qed.

(** What [option] chooses is always one of the seven kinds. *)
Lemma chooseType_kind (type : JsValue) (config : OptionConfig)
    (k : ApplicationCommandOptionType) :
  chooseType type config = inr k ->
  k ∈ [STRING; BOOLEAN; NUMBER; INTEGER; ROLE; USER; CHANNEL].
Proof.
  unfold chooseType.
  repeat (match goal with
          | |- context [if ?b then _ else _] => destruct b eqn:?
          | |- context [match cfg_type ?c with _ => _ end] => destruct (cfg_type c) eqn:?
          end; try discriminate);
    intros [= <-]; try (by repeat constructor).
  match goal with
  | H : negb (isNumOrInt (literal ?t)) = false |- _ =>
      destruct t; vm_compute in H; try discriminate H
  end; by repeat constructor.
Qed.

(** ** [option] and [forced] *)

Lemma entry_addOption (target : JsObject) (o : OptionMetadata) (store : Store) :
  entry (addOption target o store) target = entry store target ++ [o].
Proof. unfold entry at 1, addOption. rewrite lookup_insert_eq. reflexivity. Qed.

Lemma entry_addOption_other (target other : JsObject) (o : OptionMetadata)
    (store : Store) :
  target ≠ other -> entry (addOption target o store) other = entry store other.
Proof.
  intros H. unfold entry, addOption. rewrite lookup_insert_ne by assumption.
  reflexivity.
Qed.

Lemma forceOn_withForce (b : bool) (config : OptionConfig) :
  forceOn (withForce b config) = b.
Proof. reflexivity. Qed.

Lemma chooseType_withForce (b : bool) (type : JsValue) (config : OptionConfig) :
  chooseType type (withForce b config) = chooseType type config.
Proof. reflexivity. Qed.

Section OptionDecorator.

Variable getParamType : JsObject -> nat -> JsValue.

Abbreviation option' := (option_ getParamType).

(** Past its two guards, [option] is the [switch] followed by the
    cross-check. *)
Lemma option_on_run (name : string) (config : OptionConfig) (target : JsObject)
    (index : nat) (store : Store) :
  instanceOf (Obj target) Cls.Command = true ->
  option' name config target (PString "run") index store =
  match chooseType (getParamType target index) config with
  | inl e => inl e
  | inr chosenType =>
      match cfg_type config with
      | Some t =>
          if bool_decide (chosenType ≠ t) && negb (forceOn config)
          then inl (newTypeError (mismatch t chosenType))
          else inr (addOption target
                      (mkOptionMetadata name index (withType chosenType config))
                      store)
      | None =>
          inr (addOption target
                 (mkOptionMetadata name index (withType chosenType config))
                 store)
      end
  end.
Proof.
  intros Hcmd. unfold option_.
  change (notRun (PString "run")) with false. rewrite Hcmd. cbv iota. cbn [negb].
  destruct (chooseType _ _) as [e|k]; [reflexivity|].
  destruct (cfg_type config) as [t|]; [|reflexivity].
  rewrite literal_truthy. reflexivity.
Qed.

(** C1. When [config.type] is given and differs from the kind the switch
    chose: without [force] the decorator throws the type-mismatch
    [TypeError]; with [force] it returns, and the metadata it appends to
    the store has the chosen kind as its [type], not the one of the
    config. *)
Theorem option_type_mismatch (name : string) (config : OptionConfig)
    (target : JsObject) (index : nat) (store : Store)
    (K L : ApplicationCommandOptionType) :
  instanceOf (Obj target) Cls.Command = true ->
  chooseType (getParamType target index) config = inr K ->
  cfg_type config = Some L ->
  L ≠ K ->
  let recorded := mkOptionMetadata name index (withType K config) in
  (forceOn config = false ->
   option' name config target (PString "run") index store
   = inl (newTypeError (mismatch L K)))
  /\ (forceOn config = true ->
      option' name config target (PString "run") index store
      = inr (addOption target recorded store)
      /\ last (entry (addOption target recorded store) target) = Some recorded
      /\ cfg_type (om_config recorded) = Some K
      /\ cfg_type (om_config recorded) ≠ Some L).
Proof.
  intros Hcmd Hk Hl Hne recorded.
  rewrite option_on_run by assumption. rewrite Hk, Hl.
  rewrite (bool_decide_eq_true_2 (K ≠ L)) by congruence.
  split; intros ->; simpl; [reflexivity|].
  repeat split.
  - rewrite entry_addOption. apply last_snoc.
  - congruence.
Qed.

(** C4. On a parameter declared [Number]: no [config.type] throws the
    missing-type error; a [config.type] other than [NUMBER] and [INTEGER]
    throws the error that ends in that very literal; [NUMBER] or
    [INTEGER] is accepted and is the kind recorded. *)
Theorem option_number (name : string) (config : OptionConfig)
    (target : JsObject) (index : nat) (store : Store) :
  instanceOf (Obj target) Cls.Command = true ->
  getParamType target index = Obj (Ctor Cls.Number) ->
  (cfg_type config = None ->
   option' name config target (PString "run") index store
   = inl (newTypeError missingNumberType))
  /\ (forall t, cfg_type config = Some t -> t ∉ [NUMBER; INTEGER] ->
      option' name config target (PString "run") index store
      = inl (newTypeError
               ("Number type must be either NUMBER or INTEGER. Received "
                +:+ literal t)))
  /\ (forall t, cfg_type config = Some t -> t ∈ [NUMBER; INTEGER] ->
      let recorded := mkOptionMetadata name index (withType t config) in
      option' name config target (PString "run") index store
      = inr (addOption target recorded store)
      /\ last (entry (addOption target recorded store) target) = Some recorded
      /\ cfg_type (om_config recorded) = Some t).
Proof.
  intros Hcmd Hty.
  rewrite option_on_run by assumption. rewrite Hty, chooseType_Number.
  split; [|split].
  - intros ->. reflexivity.
  - intros t -> Hout. rewrite bool_decide_eq_false_2 by assumption. reflexivity.
  - intros t -> Hin recorded. rewrite bool_decide_eq_true_2 by assumption.
    rewrite (bool_decide_eq_false_2 (t ≠ t)) by (intros H; apply H; reflexivity).
    simpl. repeat split.
    rewrite entry_addOption. apply last_snoc.
Qed.

(** C10. [forced] is [option] with [force: true]. On a parameter declared
    [Number] the two numeric errors are thrown under [force] as well,
    through [forced] or through [option]. In general an error thrown under
    [force] is thrown without it, and an error thrown without [force] is
    either thrown under [force] too or is the type-mismatch error. *)
Theorem force_keeps_number_checks (name : string) (config : OptionConfig)
    (target : JsObject) (property : PropertyKey) (index : nat) (store : Store) :
  forced getParamType name config target property index store
  = option' name (withForce true config) target property index store
  /\ (instanceOf (Obj target) Cls.Command = true ->
      getParamType target index = Obj (Ctor Cls.Number) ->
      (cfg_type config = None ->
       forced getParamType name config target (PString "run") index store
       = inl (newTypeError missingNumberType)
       /\ (forceOn config = true ->
           option' name config target (PString "run") index store
           = inl (newTypeError missingNumberType)))
      /\ (forall t, cfg_type config = Some t -> t ∉ [NUMBER; INTEGER] ->
          forced getParamType name config target (PString "run") index store
          = inl (newTypeError (badNumberType t))
          /\ (forceOn config = true ->
              option' name config target (PString "run") index store
              = inl (newTypeError (badNumberType t)))))
  /\ (forall e,
      option' name (withForce true config) target property index store = inl e ->
      option' name (withForce false config) target property index store = inl e)
  /\ (forall e,
      option' name (withForce false config) target property index store = inl e ->
      option' name (withForce true config) target property index store = inl e
      \/ exists K L,
           chooseType (getParamType target index) config = inr K
           /\ cfg_type config = Some L /\ L ≠ K
           /\ e = newTypeError (mismatch L K)).
Proof.
  split; [reflexivity|]. split; [|split].
  - intros Hcmd Hty. unfold forced.
    rewrite !option_on_run by assumption.
    rewrite Hty, !chooseType_Number. simpl.
    split.
    + intros ->. split; reflexivity.
    + intros t -> Hout. rewrite bool_decide_eq_false_2 by assumption.
      split; reflexivity.
  - intros e. unfold option_.
    destruct (notRun property); [trivial|].
    destruct (negb (instanceOf (Obj target) Cls.Command)); [trivial|].
    rewrite !chooseType_withForce.
    destruct (chooseType _ _) as [e'|k]; [trivial|]. simpl.
    destruct (cfg_type config) as [t|]; [|discriminate].
    rewrite andb_false_r. discriminate.
  - intros e. unfold option_.
    destruct (notRun property); [left; assumption|].
    destruct (negb (instanceOf (Obj target) Cls.Command)); [left; assumption|].
    rewrite !chooseType_withForce.
    destruct (chooseType _ _) as [e'|k] eqn:Hk; [left; assumption|]. simpl.
    destruct (cfg_type config) as [t|]; [|discriminate].
    rewrite literal_truthy, andb_true_r. simpl.
    destruct (bool_decide (k ≠ t)) eqn:Hne; [|discriminate].
    apply bool_decide_eq_true in Hne.
    intros [= <-]. right. exists k, t. repeat split. congruence.
Qed.

End OptionDecorator.

Lemma option_type_mismatch_witness :
  option_ (Examples.allOfType Cls.GuildMember) "who"
    (Examples.typed MENTIONABLE) (Proto Examples.Ping) (PString "run") 0 ∅
  = inl (newTypeError (mismatch MENTIONABLE USER))
  /\ option_ (Examples.allOfType Cls.User) "who"
       (Examples.typedForced MENTIONABLE) (Proto Examples.Ping) (PString "run") 0 ∅
     = inr (addOption (Proto Examples.Ping)
              (mkOptionMetadata "who" 0
                 (withType USER (Examples.typedForced MENTIONABLE))) ∅).
Proof.
  split.
  - refine (proj1 (option_type_mismatch (Examples.allOfType Cls.GuildMember)
                     "who" (Examples.typed MENTIONABLE) (Proto Examples.Ping)
                     0 ∅ USER MENTIONABLE _ _ _ _) _);
      [reflexivity | reflexivity | reflexivity | discriminate | reflexivity].
  - refine (proj1 (proj2 (option_type_mismatch (Examples.allOfType Cls.User)
                     "who" (Examples.typedForced MENTIONABLE) (Proto Examples.Ping)
                     0 ∅ USER MENTIONABLE _ _ _ _) _));
      [reflexivity | reflexivity | reflexivity | discriminate | reflexivity].
Defined.

Lemma option_number_witness :
  option_ (Examples.allOfType Cls.Number) "amount" emptyConfig
    (Proto Examples.Ping) (PString "run") 0 ∅
  = inl (newTypeError missingNumberType)
  /\ option_ (Examples.allOfType Cls.Number) "amount" (Examples.typed STRING)
       (Proto Examples.Ping) (PString "run") 0 ∅
     = inl (newTypeError
              "Number type must be either NUMBER or INTEGER. Received STRING")
  /\ option_ (Examples.allOfType Cls.Number) "amount" (Examples.typed INTEGER)
       (Proto Examples.Ping) (PString "run") 0 ∅
     = inr (addOption (Proto Examples.Ping)
              (mkOptionMetadata "amount" 0
                 (withType INTEGER (Examples.typed INTEGER))) ∅).
Proof.
  split; [|split].
  - refine (proj1 (option_number (Examples.allOfType Cls.Number) "amount"
                     emptyConfig (Proto Examples.Ping) 0 ∅ _ _) _);
      reflexivity.
  - refine (proj1 (proj2 (option_number (Examples.allOfType Cls.Number) "amount"
                     (Examples.typed STRING) (Proto Examples.Ping) 0 ∅ _ _))
              STRING _ _); [reflexivity | reflexivity | reflexivity |].
    intros H. refute_by_decide H.
  - refine (proj1 (proj2 (proj2 (option_number (Examples.allOfType Cls.Number)
                     "amount" (Examples.typed INTEGER) (Proto Examples.Ping)
                     0 ∅ _ _)) INTEGER _ _));
      [reflexivity | reflexivity | reflexivity |].
    apply list_elem_of_further, list_elem_of_here.
Defined.

Lemma force_keeps_number_checks_witness :
  forced (Examples.allOfType Cls.Number) "amount" emptyConfig
    (Proto Examples.Ping) (PString "run") 0 ∅
  = inl (newTypeError missingNumberType)
  /\ forced (Examples.allOfType Cls.Number) "amount" (Examples.typed USER)
       (Proto Examples.Ping) (PString "run") 0 ∅
     = inl (newTypeError (badNumberType USER))
  /\ option_ (Examples.allOfType Cls.Number) "amount" (Examples.typedForced USER)
       (Proto Examples.Ping) (PString "run") 0 ∅
     = inl (newTypeError (badNumberType USER)).
Proof.
  split; [|split].
  - refine (proj1 (proj1 (proj1 (proj2 (force_keeps_number_checks
                     (Examples.allOfType Cls.Number) "amount" emptyConfig
                     (Proto Examples.Ping) (PString "run") 0 ∅)) _ _) _));
      reflexivity.
  - refine (proj1 (proj2 (proj1 (proj2 (force_keeps_number_checks
                     (Examples.allOfType Cls.Number) "amount"
                     (Examples.typed USER) (Proto Examples.Ping)
                     (PString "run") 0 ∅)) _ _) USER _ _));
      [reflexivity | reflexivity | reflexivity |].
    intros H. refute_by_decide H.
  - refine (proj2 (proj2 (proj1 (proj2 (force_keeps_number_checks
                     (Examples.allOfType Cls.Number) "amount"
                     (Examples.typedForced USER) (Proto Examples.Ping)
                     (PString "run") 0 ∅)) _ _) USER _ _) _);
      [reflexivity | reflexivity | reflexivity | | reflexivity].
    intros H. refute_by_decide H.
Defined.

(** C3. A parameter declared [Date] is none of the types the rules name
    and is no guild channel, yet [option] does not throw "Unsupported
    data type.": it records the option with kind [CHANNEL]. *)
Theorem option_Date_recorded_as_CHANNEL :
  option_ (Examples.allOfType Cls.Date) "when" emptyConfig
    (Proto Examples.Ping) (PString "run") 0 ∅
  = inr (addOption (Proto Examples.Ping)
           (mkOptionMetadata "when" 0 (withType CHANNEL emptyConfig)) ∅)
  /\ (option_ (Examples.allOfType Cls.Date) "when" emptyConfig
        (Proto Examples.Ping) (PString "run") 0 ∅
      ≠ inl (newTypeError unsupported))
  /\ (Proto Cls.GuildChannel ∉ prototypeChain (Proto Cls.Date))
  /\ (Cls.Date ∉ namedTypes).
Proof.
  assert (E : option_ (Examples.allOfType Cls.Date) "when" emptyConfig
                (Proto Examples.Ping) (PString "run") 0 ∅
              = inr (addOption (Proto Examples.Ping)
                       (mkOptionMetadata "when" 0 (withType CHANNEL emptyConfig)) ∅)).
  { rewrite option_on_run by reflexivity.
    unfold Examples.allOfType.
    rewrite chooseType_unnamed_class; [reflexivity|].
    intros H. refute_by_decide H. }
  split; [exact E|]. split; [rewrite E; discriminate|].
  split; intros H; refute_by_decide H.
Qed.

(** ** [Map] *)

Section JsMapFacts.

Context {V : Type}.
Implicit Types (m : JsMap V) (k : string) (v : V).

Lemma map_get_set_eq k v m : map_get k (map_set k v m) = Some v.
Proof.
  induction m as [|[k' v'] m IH]; simpl.
  - rewrite String.eqb_refl. reflexivity.
  - destruct (String.eqb_spec k k') as [->|Hne]; simpl.
    + rewrite String.eqb_refl. reflexivity.
    + destruct (String.eqb_spec k k'); [contradiction|exact IH].
Qed.

Lemma map_get_set_ne k k' v m :
  k ≠ k' -> map_get k' (map_set k v m) = map_get k' m.
Proof.
  intros Hne. induction m as [|[k0 v0] m IH]; simpl.
  - destruct (String.eqb_spec k' k); [congruence|reflexivity].
  - destruct (String.eqb_spec k k0) as [->|Hk]; simpl.
    + destruct (String.eqb_spec k' k0); [congruence|reflexivity].
    + destruct (String.eqb_spec k' k0); [reflexivity|exact IH].
Qed.

Lemma map_keys_set k v m :
  map_keys (map_set k v m) =
  if bool_decide (k ∈ map_keys m) then map_keys m else map_keys m ++ [k].
Proof.
  unfold map_keys. induction m as [|[k' v'] m IH]; [reflexivity|].
  cbn [map_set].
  destruct (String.eqb_spec k k') as [->|Hne]; rewrite !fmap_cons; cbn [fst].
  - rewrite bool_decide_eq_true_2 by apply list_elem_of_here. reflexivity.
  - rewrite IH. destruct (decide (k ∈ m.*1)) as [Hin|Hout].
    + rewrite (bool_decide_eq_true_2 (k ∈ m.*1)) by assumption.
      rewrite (bool_decide_eq_true_2 (k ∈ k' :: m.*1))
        by apply list_elem_of_further, Hin.
      reflexivity.
    + rewrite (bool_decide_eq_false_2 (k ∈ m.*1)) by assumption.
      rewrite (bool_decide_eq_false_2 (k ∈ k' :: m.*1)); [reflexivity|].
      intros H. apply elem_of_cons in H. destruct H; [congruence|contradiction].
Qed.

(** [set] keeps the keys distinct. *)
Lemma map_set_NoDup k v m : NoDup (map_keys m) -> NoDup (map_keys (map_set k v m)).
Proof.
  intros Hnd. rewrite map_keys_set. case_bool_decide as Hin; [assumption|].
  apply NoDup_app. split; [assumption|]. split.
  - intros x Hx Hk. apply list_elem_of_singleton in Hk. congruence.
  - apply NoDup_singleton.
Qed.

(** [set] on a key that is present changes no size. *)
Lemma map_set_length_present k v m :
  k ∈ map_keys m -> length (map_set k v m) = length m.
Proof.
  intros Hin.
  rewrite <- (length_fmap fst (map_set k v m)), <- (length_fmap fst m).
  change (length (map_keys (map_set k v m)) = length (map_keys m)).
  rewrite map_keys_set, bool_decide_eq_true_2 by assumption. reflexivity.
Qed.

Lemma map_get_elem_of k v m : map_get k m = Some v -> (k, v) ∈ m.
Proof.
  induction m as [|[k' v'] m IH]; simpl; [discriminate|].
  destruct (String.eqb_spec k k') as [->|Hne].
  - intros [= ->]. apply list_elem_of_here.
  - intros H. apply list_elem_of_further, IH, H.
Qed.

(** With distinct keys, an entry of the list is what [get] returns. *)
Lemma elem_of_map_get k v m : NoDup (map_keys m) -> (k, v) ∈ m -> map_get k m = Some v.
Proof.
  unfold map_keys. induction m as [|[k' v'] m IH]; simpl; intros Hnd Hin.
  - apply elem_of_nil in Hin. contradiction.
  - apply NoDup_cons in Hnd. destruct Hnd as [Hk' Hnd].
    apply elem_of_cons in Hin. destruct Hin as [[= -> ->]|Hin].
    + rewrite String.eqb_refl. reflexivity.
    + destruct (String.eqb_spec k k') as [->|Hne]; [|apply IH; assumption].
      exfalso. apply Hk'.
      apply (list_elem_of_fmap_2 fst) in Hin. exact Hin.
Qed.

Lemma map_get_None k m : map_get k m = None <-> k ∉ map_keys m.
Proof.
  unfold map_keys. induction m as [|[k' v'] m IH]; simpl.
  - split; [intros _; apply not_elem_of_nil|reflexivity].
  - rewrite not_elem_of_cons.
    destruct (String.eqb_spec k k') as [->|Hne].
    + split; [discriminate|]. intros [H _]. contradiction.
    + rewrite IH. split; [intros H; split; assumption|intros [_ H]; exact H].
Qed.

End JsMapFacts.

(** ** [addCommands] *)

Section Registry.

Variable readCommand : Command -> Throws CommandData.

Abbreviation register' := (register readCommand).

Lemma readable_cons (c : Command) (mapped : list Command) :
  readable readCommand (c :: mapped) ->
  (exists data, readCommand c = inr data) /\ readable readCommand mapped.
Proof.
  intros H. split.
  - apply H, list_elem_of_here.
  - intros c' Hc'. apply H, list_elem_of_further, Hc'.
Qed.

Lemma register_readable (mapped : list Command) (this : Mammot) :
  readable readCommand mapped -> snd (register' mapped this) = None.
Proof.
  revert this. induction mapped as [|c mapped IH]; intros this Hr; [reflexivity|].
  apply readable_cons in Hr. destruct Hr as [[data Hd] Hr].
  simpl. rewrite Hd. apply IH, Hr.
Qed.

Lemma register_app (pre post : list Command) (this : Mammot) :
  readable readCommand pre ->
  register' (pre ++ post) this = register' post (fst (register' pre this)).
Proof.
  revert this. induction pre as [|c pre IH]; intros this Hr; [reflexivity|].
  apply readable_cons in Hr. destruct Hr as [[data Hd] Hr].
  simpl. rewrite Hd. apply IH, Hr.
Qed.

(** The loop keeps the keys of the registry distinct, wherever it stops. *)
Lemma register_NoDup (mapped : list Command) (this : Mammot) :
  NoDup (map_keys (commands this)) ->
  NoDup (map_keys (commands (fst (register' mapped this)))).
Proof.
  revert this. induction mapped as [|c mapped IH]; intros this Hnd; [exact Hnd|].
  simpl. destruct (readCommand c) as [e|data]; [exact Hnd|].
  apply IH. simpl. apply map_set_NoDup, Hnd.
Qed.

(** A name no command of the list carries keeps its entry. *)
Lemma register_other_name (n : string) (mapped : list Command) (this : Mammot) :
  (forall c data, c ∈ mapped -> readCommand c = inr data -> cd_name data ≠ n) ->
  map_get n (commands (fst (register' mapped this))) = map_get n (commands this).
Proof.
  revert this. induction mapped as [|c mapped IH]; intros this Hn; [reflexivity|].
  simpl. destruct (readCommand c) as [e|data] eqn:Hd; [reflexivity|].
  rewrite IH.
  - simpl. apply map_get_set_ne. apply (Hn c data); [apply list_elem_of_here|exact Hd].
  - intros c' data' Hc'. apply Hn, list_elem_of_further, Hc'.
Qed.

(** C8. When every class constructs and every command can be read,
    [addCommands] returns without throwing; the names of the registry
    stay distinct, so a name has one entry; the entry of a name is the
    descriptor of the last command of the list that carries it, also
    when the name was registered before; other names keep theirs. *)
Theorem addCommands_last_write_wins (cmds : list ConstructableCommand)
    (mapped : list Command) (this : Mammot) :
  NoDup (map_keys (commands this)) ->
  construct this cmds = inr mapped ->
  readable readCommand mapped ->
  let after := fst (addCommands readCommand cmds this) in
  snd (addCommands readCommand cmds this) = None
  /\ NoDup (map_keys (commands after))
  /\ (forall n pc pc',
        (n, pc) ∈ commands after -> (n, pc') ∈ commands after -> pc = pc')
  /\ (forall pre c post data,
        mapped = pre ++ c :: post ->
        readCommand c = inr data ->
        (forall c' data',
            c' ∈ post -> readCommand c' = inr data' ->
            cd_name data' ≠ cd_name data) ->
        map_get (cd_name data) (commands after) = Some (parsed c data))
  /\ (forall n,
        (forall c data, c ∈ mapped -> readCommand c = inr data -> cd_name data ≠ n) ->
        map_get n (commands after) = map_get n (commands this)).
Proof.
  intros Hnd Hc Hr after. subst after. unfold addCommands. rewrite Hc.
  assert (Hnd' := register_NoDup mapped this Hnd).
  split; [apply register_readable, Hr|]. split; [exact Hnd'|].
  split; [|split].
  - intros n pc pc' H1 H2.
    apply (elem_of_map_get _ _ _ Hnd') in H1.
    apply (elem_of_map_get _ _ _ Hnd') in H2. congruence.
  - intros pre c post data -> Hd Hpost.
    rewrite register_app.
    + simpl. rewrite Hd. rewrite register_other_name by exact Hpost.
      simpl. apply map_get_set_eq.
    + intros c' Hc'. apply Hr, elem_of_app. left. exact Hc'.
  - intros n Hn. apply register_other_name, Hn.
Qed.

End Registry.

Lemma addCommands_last_write_wins_witness :
  map_get "ping"
    (commands (fst (addCommands Examples.readPing
                      [fun _ => inr Examples.quiet; fun _ => inr Examples.refusing]
                      (Examples.client Examples.failing None))))
  = Some (parsed Examples.refusing (mkCommandData "ping" "pong" 0))
  /\ snd (addCommands Examples.readPing
            [fun _ => inr Examples.quiet; fun _ => inr Examples.refusing]
            (Examples.client Examples.failing None)) = None.
Proof.
  assert (Hnd : NoDup (map_keys (commands (Examples.client Examples.failing None)))).
  { apply NoDup_singleton. }
  assert (Hr : readable Examples.readPing [Examples.quiet; Examples.refusing]).
  { intros c _. exists (mkCommandData "ping" "pong" 0). reflexivity. }
  pose proof (addCommands_last_write_wins Examples.readPing
                [fun _ => inr Examples.quiet; fun _ => inr Examples.refusing]
                [Examples.quiet; Examples.refusing]
                (Examples.client Examples.failing None) Hnd eq_refl Hr)
    as (Hok & _ & _ & Hlast & _).
  split; [|exact Hok].
  apply (Hlast [Examples.quiet] Examples.refusing [] (mkCommandData "ping" "pong" 0));
    [reflexivity | reflexivity |].
  intros c' data' Hc'. apply elem_of_nil in Hc'. contradiction.
Defined.

(** ** [login] *)

Lemma array_insert (h : Heap) (r : Ref) (l : list OptionMetadata) :
  array (<[r := l]> h) r = l.
Proof. unfold array. rewrite lookup_insert_eq. reflexivity. Qed.

Lemma array_insert_ne (h : Heap) (r r' : Ref) (l : list OptionMetadata) :
  r ≠ r' -> array (<[r := l]> h) r' = array h r'.
Proof. intros H. unfold array. rewrite lookup_insert_ne by assumption. reflexivity. Qed.

Lemma mapCommands_cons (command : ParsedCommand) (rest : list ParsedCommand)
    (h : Heap) :
  let h1 := <[pc_options command := reverse (array h (pc_options command))]> h in
  mapCommands (command :: rest) h =
  (fst (mapCommands rest h1),
   mkApplicationCommandData
     (flatten <$> reverse (array h (pc_options command)))
     (pc_name command) (pc_description command)
   :: snd (mapCommands rest h1)).
Proof. simpl. destruct (mapCommands rest _). reflexivity. Qed.

(** References no command holds are left alone. *)
Lemma mapCommands_frame (values : list ParsedCommand) (h : Heap) (r : Ref) :
  r ∉ pc_options <$> values -> fst (mapCommands values h) !! r = h !! r.
Proof.
  revert h. induction values as [|command rest IH]; intros h Hr; [reflexivity|].
  rewrite fmap_cons in Hr. apply not_elem_of_cons in Hr. destruct Hr as [Hne Hr].
  rewrite mapCommands_cons. cbn [fst]. rewrite IH by assumption.
  apply lookup_insert_ne. congruence.
Qed.

Lemma mapCommands_array_frame (values : list ParsedCommand) (h : Heap) (r : Ref) :
  r ∉ pc_options <$> values -> array (fst (mapCommands values h)) r = array h r.
Proof. intros Hr. unfold array. rewrite mapCommands_frame by assumption. reflexivity. Qed.

(** When no two commands hold the same array, each array is reversed
    once, and each submitted entry lists the reversed array. *)
Lemma mapCommands_distinct (values : list ParsedCommand) (h : Heap) :
  NoDup (pc_options <$> values) ->
  (forall command, command ∈ values ->
     array (fst (mapCommands values h)) (pc_options command)
     = reverse (array h (pc_options command)))
  /\ snd (mapCommands values h)
     = (fun command =>
          mkApplicationCommandData
            (flatten <$> reverse (array h (pc_options command)))
            (pc_name command) (pc_description command)) <$> values.
Proof.
  revert h. induction values as [|command rest IH]; intros h Hnd.
  - split; [|reflexivity]. intros c Hc. apply elem_of_nil in Hc. contradiction.
  - rewrite fmap_cons in Hnd. apply NoDup_cons in Hnd. destruct Hnd as [Hout Hnd].
    rewrite mapCommands_cons. cbn [fst snd].
    destruct (IH (<[pc_options command := reverse (array h (pc_options command))]> h)
                Hnd) as [IHh IHm].
    assert (Hrest : forall c, c ∈ rest -> pc_options command ≠ pc_options c).
    { intros c Hc Heq. apply Hout. rewrite Heq.
      apply (list_elem_of_fmap_2 pc_options), Hc. }
    split.
    + intros c Hc. apply elem_of_cons in Hc. destruct Hc as [->|Hc].
      * rewrite mapCommands_array_frame by assumption. apply array_insert.
      * rewrite IHh by assumption. rewrite array_insert_ne by (apply Hrest, Hc).
        reflexivity.
    + rewrite fmap_cons. f_equal. rewrite IHm.
      apply list_fmap_ext. intros i c Hc.
      apply list_elem_of_lookup_2 in Hc.
      rewrite array_insert_ne by (apply Hrest, Hc). reflexivity.
Qed.

Lemma map_get_values {V : Type} (k : string) (v : V) (m : JsMap V) :
  map_get k m = Some v -> v ∈ map_values m.
Proof.
  intros H. apply map_get_elem_of in H.
  apply (list_elem_of_fmap_2 snd) in H. exact H.
Qed.

(** Reversing a list in descending order gives one in ascending order. *)
Lemma descending_reverse (l : list nat) :
  StronglySorted gt l -> StronglySorted lt (reverse l).
Proof.
  induction 1 as [|x l Hl IH Hx]; [constructor|].
  rewrite reverse_cons. apply StronglySorted_app_2.
  - intros a b Ha Hb. apply list_elem_of_singleton in Hb. subst b.
    rewrite elem_of_reverse in Ha. rewrite Forall_forall in Hx.
    apply Hx, Ha.
  - exact IH.
  - repeat constructor.
Qed.

(** An array is reversed once for every command that refers to it. *)
Lemma mapCommands_parity (values : list ParsedCommand) (h : Heap) (r : Ref) :
  array (fst (mapCommands values h)) r
  = if Nat.even (length (filter (fun command => pc_options command = r) values))
    then array h r
    else reverse (array h r).
Proof.
  revert h. induction values as [|command rest IH]; intros h; [reflexivity|].
  rewrite mapCommands_cons. cbn [fst]. rewrite IH, filter_cons.
  destruct (decide (pc_options command = r)) as [->|Hne].
  - rewrite array_insert. cbn [length]. rewrite Nat.even_succ, <- Nat.negb_even.
    destruct (Nat.even _); cbn [negb]; [reflexivity|apply reverse_involutive].
  - rewrite array_insert_ne by assumption. reflexivity.
Qed.

(** The entry built for a command lists the command's array reversed,
    provided no command before it refers to the same array. *)
Lemma mapCommands_lookup (values : list ParsedCommand) (h : Heap) (i : nat)
    (command : ParsedCommand) :
  values !! i = Some command ->
  (forall j earlier,
      j < i -> values !! j = Some earlier ->
      pc_options earlier ≠ pc_options command) ->
  snd (mapCommands values h) !! i
  = Some (mkApplicationCommandData
            (flatten <$> reverse (array h (pc_options command)))
            (pc_name command) (pc_description command)).
Proof.
  revert h i. induction values as [|first rest IH]; intros h i Hi Hearlier.
  - discriminate.
  - rewrite mapCommands_cons. cbn [snd]. destruct i as [|i].
    + injection Hi as <-. reflexivity.
    + cbn [lookup list_lookup]. simpl in Hi. rewrite IH with (1 := Hi).
      * rewrite array_insert_ne; [reflexivity|].
        apply (Hearlier 0 first); [lia|reflexivity].
      * intros j earlier Hj He. apply (Hearlier (S j) earlier); [lia|exact He].
Qed.

Lemma mapCommands_length (values : list ParsedCommand) (h : Heap) :
  length (snd (mapCommands values h)) = length values.
Proof.
  revert h. induction values as [|first rest IH]; intros h; [reflexivity|].
  rewrite mapCommands_cons. cbn [snd length]. rewrite IH. reflexivity.
Qed.

(** C2, as amended. The list the [ready] listener submits, whether the
    sync then resolves or rejects, has one [{options, name,
    description}] entry per registry entry, in registry order. For a
    command whose array no earlier entry refers to, the options of its
    entry are the [{...config, name}] of the metadata in the array, in
    the reverse of the order the array had when [login] was called;
    when that order was descending in index, as collected, the entry
    lists the command's options in ascending index order. *)
Theorem login_submits_reversed_options
    (commandsSet : list ApplicationCommandData -> option Snowflake -> option JsValue)
    (optionsReady : option JsValue) (this : Mammot) (h : Heap) :
  let mapped := snd (login this h) in
  let scope := if isDev this then Some (developmentGuildId this) else None in
  let spread := fun o : OptionMetadata =>
    mkOptionConfig (cfg_type (om_config o)) (cfg_force (om_config o))
      (Some (om_name o)) (cfg_description (om_config o))
      (cfg_required (om_config o)) (cfg_choices (om_config o))
      (cfg_channelTypes (om_config o)) in
  fst (ready commandsSet optionsReady this mapped)
  = CommandsSet mapped scope
      :: match commandsSet mapped scope with
         | None => [ReadyCallback]
         | Some _ => []
         end
  /\ length mapped = length (commands this)
  /\ (forall i command,
        map_values (commands this) !! i = Some command ->
        (forall j earlier,
            j < i -> map_values (commands this) !! j = Some earlier ->
            pc_options earlier ≠ pc_options command) ->
        mapped !! i
        = Some (mkApplicationCommandData
                  (spread <$> reverse (array h (pc_options command)))
                  (pc_name command) (pc_description command))
        /\ (StronglySorted gt (om_index <$> array h (pc_options command)) ->
            exists descriptors,
              descriptors ≡ₚ array h (pc_options command)
              /\ StronglySorted lt (om_index <$> descriptors)
              /\ acd_options <$> mapped !! i = Some (spread <$> descriptors))).
Proof.
  intros mapped scope spread. split; [|split].
  - unfold ready. subst scope.
    destruct (isDev this); destruct (commandsSet mapped _); reflexivity.
  - subst mapped. unfold login, map_values.
    rewrite mapCommands_length, length_fmap. reflexivity.
  - intros i command Hi Hearlier.
    assert (E : mapped !! i
                = Some (mkApplicationCommandData
                          (spread <$> reverse (array h (pc_options command)))
                          (pc_name command) (pc_description command))).
    { subst mapped. unfold login.
      rewrite (mapCommands_lookup _ h i command Hi Hearlier). reflexivity. }
    split; [exact E|]. intros Hdesc.
    exists (reverse (array h (pc_options command))).
    split; [apply reverse_Permutation|]. split.
    + rewrite fmap_reverse. apply descending_reverse, Hdesc.
    + rewrite E. reflexivity.
Qed.

Lemma login_submits_reversed_options_witness :
  snd (login (Examples.client Examples.quiet None) Examples.heap0) !! 0
  = Some (mkApplicationCommandData
            [mkOptionConfig (Some STRING) None (Some "reason") None None None None;
             mkOptionConfig (Some INTEGER) None (Some "times") None None None None]
            "ping" "pong")
  /\ exists descriptors,
       descriptors ≡ₚ Examples.collected
       /\ StronglySorted lt (om_index <$> descriptors)
       /\ acd_options
            <$> snd (login (Examples.client Examples.quiet None) Examples.heap0) !! 0
          = Some ((fun o : OptionMetadata =>
                     mkOptionConfig (cfg_type (om_config o)) (cfg_force (om_config o))
                       (Some (om_name o)) (cfg_description (om_config o))
                       (cfg_required (om_config o)) (cfg_choices (om_config o))
                       (cfg_channelTypes (om_config o)))
                    <$> descriptors).
Proof.
  destruct (login_submits_reversed_options Examples.syncResolves None
              (Examples.client Examples.quiet None) Examples.heap0)
    as (_ & _ & Hentry).
  assert (Hfirst : forall j earlier,
             j < 0 ->
             map_values (commands (Examples.client Examples.quiet None)) !! j
             = Some earlier ->
             pc_options earlier
             ≠ pc_options (mkParsedCommand "ping" "pong" Examples.quiet 0)).
  { intros j earlier Hj. inversion Hj. }
  destruct (Hentry 0 (mkParsedCommand "ping" "pong" Examples.quiet 0) eq_refl Hfirst)
    as [Hopt Hasc].
  split; [exact Hopt|].
  apply Hasc. repeat constructor.
Defined.

(** C2, as first stated, fails here. On a client made by [Mammot.client]
    and [addCommands], with two commands whose options are found in one
    array, the entry submitted for the second command lists the options
    in the order of the array, index [1] before index [0]: the first
    command's turn reversed the array, and the second reversed it
    back. *)
Lemma second_sharer_is_submitted_descending :
  built Examples.readShared Examples.sharing
  /\ map_values (commands Examples.sharing) !! 1
     = Some (mkParsedCommand "b" "second" Examples.refusing 0)
  /\ om_index <$> array Examples.heap0 0 = [1; 0]
  /\ snd (login Examples.sharing Examples.heap0) !! 1
     = Some (mkApplicationCommandData
               [mkOptionConfig (Some INTEGER) None (Some "times") None None None None;
                mkOptionConfig (Some STRING) None (Some "reason") None None None None]
               "b" "second")
  /\ acd_options <$> snd (login Examples.sharing Examples.heap0) !! 1
     ≠ Some (flatten <$> reverse (array Examples.heap0 0)).
Proof.
  split; [apply built_addCommands, built_client|].
  split; [reflexivity|]. split; [reflexivity|]. split; [reflexivity|].
  intros H. discriminate H.
Qed.

(** An array two commands share is reversed twice by one [login], so it
    ends as it began, and the two submitted entries list it in opposite
    orders. *)
Lemma shared_array_is_reversed_twice :
  let this :=
    mkMammot [("a", mkParsedCommand "a" "first" Examples.quiet 0);
              ("b", mkParsedCommand "b" "second" Examples.quiet 0)]
      "guild" None false in
  array (fst (login this Examples.heap0)) 0 = Examples.collected
  /\ acd_options <$> snd (login this Examples.heap0)
     = [flatten <$> reverse Examples.collected; flatten <$> Examples.collected].
Proof. split; reflexivity. Qed.

(** ** The [interactionCreate] listener *)

Section Dispatch.

Variable resolveMetadata :
  Interaction -> list OptionMetadata -> Throws (list JsValue).

Abbreviation dispatch := (interactionCreate resolveMetadata).

(** Of the heap the listener reads the array of the command it found,
    and nothing else. *)
Lemma dispatch_reads_found (this : Mammot) (h1 h2 : Heap) (i : Interaction)
    (found : ParsedCommand) :
  map_get (commandName i) (commands this) = Some found ->
  array h1 (pc_options found) = array h2 (pc_options found) ->
  dispatch this h1 i = dispatch this h2 i.
Proof.
  intros Hf Ha. unfold interactionCreate. rewrite Hf, Ha. reflexivity.
Qed.

(** C9, as amended. For a registered command that is the only one to
    refer to its array, [login] reverses that array in the heap: after
    [login] the array the registry entry refers to is the reverse of
    what it was; the listener resolves the arguments of an invocation
    against that reversed array and calls the handler with them; a
    second [login] restores the order; and arrays no command refers to
    are left as they were. *)
Theorem login_reverses_in_place (this : Mammot) (h : Heap) (n : string)
    (found : ParsedCommand) :
  map_get n (commands this) = Some found ->
  length (filter (fun command => pc_options command = pc_options found)
            (map_values (commands this))) = 1 ->
  let h1 := fst (login this h) in
  let h2 := fst (login this h1) in
  array h1 (pc_options found) = reverse (array h (pc_options found))
  /\ (forall i args,
        isCommand i = true -> commandName i = n ->
        resolveMetadata i (reverse (array h (pc_options found))) = inr args ->
        exists rest,
          fst (dispatch this h1 i)
          = Called (pc_command found) i args
              :: (Did <$> fst (run (pc_command found) i args)) ++ rest)
  /\ array h2 (pc_options found) = array h (pc_options found)
  /\ (forall r,
        r ∉ pc_options <$> map_values (commands this) -> h1 !! r = h !! r).
Proof.
  intros Hf Hone h1 h2.
  assert (H1 : array h1 (pc_options found) = reverse (array h (pc_options found))).
  { subst h1. unfold login. rewrite mapCommands_parity, Hone. reflexivity. }
  split; [exact H1|]. split; [|split].
  - intros i args Hi Hn Hargs. unfold interactionCreate.
    rewrite Hi, Hn, Hf, H1, Hargs. cbn [negb].
    destruct (run (pc_command found) i args) as [effects [error|]]; cbn [fst].
    + eexists. rewrite <- app_comm_cons. reflexivity.
    + exists []. rewrite app_nil_r. reflexivity.
  - subst h2. unfold login at 1. rewrite mapCommands_parity, Hone, H1.
    apply reverse_involutive.
  - intros r Hr. apply mapCommands_frame, Hr.
Qed.

(** C7. An interaction whose [commandName] is no key of the registry
    makes the listener return at once: nothing is called, nothing is
    replied or logged, nothing is thrown. *)
Theorem unknown_command_is_ignored (this : Mammot) (h : Heap) (i : Interaction) :
  commandName i ∉ map_keys (commands this) ->
  dispatch this h i = ([], None).
Proof.
  intros Hk. apply map_get_None in Hk. unfold interactionCreate.
  rewrite Hk. destruct (isCommand i); reflexivity.
Qed.

(** C5. When the handler rejects with an instance of [MammotError], the
    listener replies once, ephemerally, with the [message] of that
    error, and logs nothing. *)
Theorem domain_error_is_replied_verbatim (this : Mammot) (h : Heap)
    (i : Interaction) (found : ParsedCommand) (args : list JsValue)
    (effects : list Effect) (error : JsValue) :
  isCommand i = true ->
  map_get (commandName i) (commands this) = Some found ->
  resolveMetadata i (array h (pc_options found)) = inr args ->
  run (pc_command found) i args = (effects, Some error) ->
  instanceOf error Cls.MammotError = true ->
  dispatch this h i
  = (Called (pc_command found) i args :: (Did <$> effects)
       ++ [Did (Reply true (messageOf error))],
     None).
Proof.
  intros Hc Hf Hr Hrun Hm. unfold interactionCreate.
  rewrite Hc, Hf, Hr, Hrun, Hm. reflexivity.
Qed.

(** C6, as amended. When the handler rejects with a value that is no
    instance of [MammotError], the listener logs that value and replies
    once, ephemerally: with the fallback message when one is configured
    and is not the empty string, with "Something went wrong." when none
    is configured or the configured one is empty. The reply text does
    not depend on the value thrown. *)
Theorem unexpected_error_is_sanitized (this : Mammot) (h : Heap)
    (i : Interaction) (found : ParsedCommand) (args : list JsValue)
    (effects : list Effect) (error : JsValue) :
  isCommand i = true ->
  map_get (commandName i) (commands this) = Some found ->
  resolveMetadata i (array h (pc_options found)) = inr args ->
  run (pc_command found) i args = (effects, Some error) ->
  instanceOf error Cls.MammotError = false ->
  (forall fallback,
     fallbackError this = Some fallback -> fallback ≠ "" ->
     dispatch this h i
     = (Called (pc_command found) i args :: (Did <$> effects)
          ++ [Did (Warn error); Did (Reply true fallback)],
        None))
  /\ (fallbackError this = None \/ fallbackError this = Some "" ->
      dispatch this h i
      = (Called (pc_command found) i args :: (Did <$> effects)
           ++ [Did (Warn error); Did (Reply true "Something went wrong.")],
         None)).
Proof.
  intros Hc Hf Hr Hrun Hm. unfold interactionCreate.
  rewrite Hc, Hf, Hr, Hrun, Hm. cbn [negb]. split.
  - intros fallback -> Hne. unfold truthy.
    destruct (String.eqb_spec fallback ""); [contradiction|reflexivity].
  - intros [->| ->]; reflexivity.
Qed.

End Dispatch.

Lemma login_reverses_in_place_witness :
  array (fst (login (Examples.client Examples.quiet None) Examples.heap0)) 0
  = reverse Examples.collected
  /\ (exists rest,
        fst (interactionCreate Examples.resolveByName
               (Examples.client Examples.quiet None)
               (fst (login (Examples.client Examples.quiet None) Examples.heap0))
               Examples.pingEvent)
        = Called Examples.quiet Examples.pingEvent [Str "hi"; Str "2"]
            :: (Did <$> fst (run Examples.quiet Examples.pingEvent [Str "hi"; Str "2"]))
            ++ rest)
  /\ array (fst (login (Examples.client Examples.quiet None)
                   (fst (login (Examples.client Examples.quiet None)
                           Examples.heap0)))) 0
     = Examples.collected.
Proof.
  destruct (login_reverses_in_place Examples.resolveByName
              (Examples.client Examples.quiet None) Examples.heap0 "ping"
              (mkParsedCommand "ping" "pong" Examples.quiet 0) eq_refl eq_refl)
    as (Hrev & Hcall & Hback & _).
  split; [exact Hrev|]. split; [|exact Hback].
  exact (Hcall Examples.pingEvent [Str "hi"; Str "2"] eq_refl eq_refl eq_refl).
Defined.

(** C9, as first stated, fails here. On a client made by [Mammot.client]
    and [addCommands], with two commands whose options are found in one
    array, [login] reverses that array twice: the array the entry of
    [b] refers to is, after [login], in the order it had before. *)
Lemma shared_array_is_not_reversed :
  built Examples.readShared Examples.sharing
  /\ map_get "b" (commands Examples.sharing)
     = Some (mkParsedCommand "b" "second" Examples.refusing 0)
  /\ array (fst (login Examples.sharing Examples.heap0)) 0 = array Examples.heap0 0
  /\ array (fst (login Examples.sharing Examples.heap0)) 0
     ≠ reverse (array Examples.heap0 0).
Proof.
  split; [apply built_addCommands, built_client|].
  split; [reflexivity|]. split; [reflexivity|].
  intros H. discriminate H.
Qed.

Lemma unknown_command_is_ignored_witness :
  interactionCreate Examples.resolveByName
    (Examples.client Examples.failing (Some "Oops!")) Examples.heap0
    Examples.pongEvent
  = ([], None).
Proof.
  apply unknown_command_is_ignored.
  intros H. apply list_elem_of_singleton in H. discriminate H.
Defined.

Lemma domain_error_is_replied_verbatim_witness :
  interactionCreate Examples.resolveByName
    (Examples.client Examples.refusing (Some "Oops!")) Examples.heap0
    Examples.pingEvent
  = ([Called Examples.refusing Examples.pingEvent [Str "2"; Str "hi"];
      Did (Reply true "Not enough permissions")],
     None).
Proof.
  exact (domain_error_is_replied_verbatim Examples.resolveByName
           (Examples.client Examples.refusing (Some "Oops!")) Examples.heap0
           Examples.pingEvent
           (mkParsedCommand "ping" "pong" Examples.refusing 0)
           [Str "2"; Str "hi"] []
           (Obj (Instance Cls.MammotError "Not enough permissions"))
           eq_refl eq_refl eq_refl eq_refl eq_refl).
Defined.

Lemma unexpected_error_is_sanitized_witness :
  interactionCreate Examples.resolveByName
    (Examples.client Examples.failing (Some "Oops!")) Examples.heap0
    Examples.pingEvent
  = ([Called Examples.failing Examples.pingEvent [Str "2"; Str "hi"];
      Did (Warn (newTypeError "x is not a function"));
      Did (Reply true "Oops!")],
     None)
  /\ interactionCreate Examples.resolveByName
       (Examples.client Examples.failing None) Examples.heap0
       Examples.pingEvent
     = ([Called Examples.failing Examples.pingEvent [Str "2"; Str "hi"];
         Did (Warn (newTypeError "x is not a function"));
         Did (Reply true "Something went wrong.")],
        None).
Proof.
  split.
  - refine (proj1 (unexpected_error_is_sanitized Examples.resolveByName
                     (Examples.client Examples.failing (Some "Oops!"))
                     Examples.heap0 Examples.pingEvent
                     (mkParsedCommand "ping" "pong" Examples.failing 0)
                     [Str "2"; Str "hi"] []
                     (newTypeError "x is not a function")
                     eq_refl eq_refl eq_refl eq_refl eq_refl) "Oops!" eq_refl _).
    discriminate.
  - refine (proj2 (unexpected_error_is_sanitized Examples.resolveByName
                     (Examples.client Examples.failing None)
                     Examples.heap0 Examples.pingEvent
                     (mkParsedCommand "ping" "pong" Examples.failing 0)
                     [Str "2"; Str "hi"] []
                     (newTypeError "x is not a function")
                     eq_refl eq_refl eq_refl eq_refl eq_refl) _).
    left. reflexivity.
Defined.

(** C6, as first stated, fails here. A fallback message that is
    configured, but empty, is not what the listener replies: an empty string is falsy, so the reply is the
    generic text. *)
Lemma empty_fallback_is_not_replied :
  fallbackError (Examples.client Examples.failing (Some "")) = Some ""
  /\ interactionCreate Examples.resolveByName
       (Examples.client Examples.failing (Some "")) Examples.heap0
       Examples.pingEvent
     = ([Called Examples.failing Examples.pingEvent [Str "2"; Str "hi"];
         Did (Warn (newTypeError "x is not a function"));
         Did (Reply true "Something went wrong.")],
        None)
  /\ interactionCreate Examples.resolveByName
       (Examples.client Examples.failing (Some "")) Examples.heap0
       Examples.pingEvent
     ≠ ([Called Examples.failing Examples.pingEvent [Str "2"; Str "hi"];
         Did (Warn (newTypeError "x is not a function"));
         Did (Reply true "")],
        None).
Proof.
  split; [reflexivity|]. split; [reflexivity|].
  intros H. discriminate H.
Qed.

(* ===================================================================== *)
(** * Further properties *)
(* ===================================================================== *)

(** ** Which targets the decorators accept *)

Lemma proto_line_unfold (c : Class) : proto_line c = Proto c :: tail (proto_line c).
Proof. destruct c as [n|n s]; simpl; [destruct (String.eqb n "Object")|]; reflexivity. Qed.

Lemma prototype_above_below (C c : Class) :
  C ≠ Object -> Proto C ∈ tail (proto_line c) <-> below C c = true.
Proof.
  intros HC. induction c as [n|n s IH]; simpl.
  - split; [|discriminate]. intros H.
    destruct (String.eqb n "Object"); simpl in H.
    + apply elem_of_nil in H. contradiction.
    + apply list_elem_of_singleton in H. congruence.
  - rewrite proto_line_unfold, elem_of_cons, IH, orb_true_iff, bool_decide_eq_true.
    split; (intros [H|H]; [left; congruence|right; exact H]).
Qed.

(** [C.prototype instanceof ...]: a prototype object is an instance of
    exactly the classes its own class is declared below. *)
Lemma instanceOf_prototype (C c : Class) :
  C ≠ Object -> instanceOf (Obj (Proto c)) C = below C c.
Proof.
  intros HC. unfold instanceOf, prototypeChain.
  destruct (below C c) eqn:E.
  - apply bool_decide_eq_true, prototype_above_below; assumption.
  - apply bool_decide_eq_false. rewrite prototype_above_below by assumption.
    congruence.
Qed.

Lemma ctor_line_members (c : Class) (x : JsObject) :
  x ∈ ctor_line c -> (exists c', x = Ctor c') \/ x = Proto Function \/ x = Proto Object.
Proof.
  induction c as [n|n s IH]; simpl; intros H.
  - repeat (apply elem_of_cons in H; destruct H as [->|H]); eauto.
    apply elem_of_nil in H. contradiction.
  - apply elem_of_cons in H. destruct H as [->|H]; eauto.
Qed.

(** A class object is an instance of [Function] and [Object] only. *)
Lemma class_instanceOf_other (C c : Class) :
  C ≠ Function -> C ≠ Object -> instanceOf (Obj (Ctor c)) C = false.
Proof.
  intros HF HO. apply bool_decide_eq_false. intros H.
  assert (Hin : Proto C ∈ ctor_line c).
  { rewrite ctor_line_unfold. apply list_elem_of_further, H. }
  apply ctor_line_members in Hin.
  destruct Hin as [[c' Hc']|[Hc'|Hc']]; congruence.
Qed.

Lemma constructorOf_prototype (c : Class) : constructorOf (Proto c) = c.
Proof. reflexivity. Qed.

Lemma notRun_true (property : PropertyKey) :
  notRun property = true <-> property ≠ PString "run".
Proof.
  destruct property as [s|d]; simpl.
  - rewrite negb_true_iff. destruct (String.eqb_spec s "run") as [->|Hne].
    + split; [discriminate|]. intros H. contradiction.
    + split; [|reflexivity]. intros _ [= ->]. contradiction.
  - split; [discriminate|reflexivity].
Qed.

Section OptionGuards.

Variable getParamType : JsObject -> nat -> JsValue.

Abbreviation attach := (option_ getParamType).

(** X1. On any property other than [run], a string or a symbol, the
    decorator throws the wrong-method [Error], whose message ends in
    [property.toString()]. This check comes first: the target, the
    declared type and the config play no part. *)
Theorem option_wrong_method (name : string) (config : OptionConfig)
    (target : JsObject) (property : PropertyKey) (index : nat) (store : Store) :
  property ≠ PString "run" ->
  attach name config target property index store
  = inl (newError
           ("The @option() decorator can only be used on the .run method. You used it on "
            +:+ propertyToString property)).
Proof.
  intros H. apply notRun_true in H. unfold option_. rewrite H. reflexivity.
Qed.

(** X2. On [run], a target that is the prototype of class [c] is turned
    down with the wrong-class [Error], naming [c], exactly when [c] is
    not declared below [Command]; [Command.prototype] itself is turned
    down. A target that is a class object (the target of a static
    method) is always turned down, and the name reported is
    [Function]. *)
Theorem option_wrong_class (name : string) (config : OptionConfig)
    (c : Class) (index : nat) (store : Store) :
  (attach name config (Proto c) (PString "run") index store
   = inl (newError
            ("You can only use @option() on a class extending Command! You used "
             +:+ className c))
   <-> below Cls.Command c = false)
  /\ attach name config (Proto Cls.Command) (PString "run") index store
     = inl (newError
              "You can only use @option() on a class extending Command! You used Command")
  /\ attach name config (Ctor c) (PString "run") index store
     = inl (newError
              "You can only use @option() on a class extending Command! You used Function").
Proof.
  split; [|split].
  - unfold option_. change (notRun (PString "run")) with false. cbv iota.
    rewrite instanceOf_prototype by discriminate.
    destruct (below Cls.Command c); cbn [negb].
    + split; [|discriminate]. intros H. exfalso. revert H.
      destruct (chooseType _ _) as [e|k] eqn:Hk.
      * unfold chooseType in Hk.
        repeat (match type of Hk with
                | context [if ?b then _ else _] => destruct b
                | context [match cfg_type ?x with _ => _ end] => destruct (cfg_type x)
                end; try discriminate Hk);
          injection Hk as <-; discriminate.
      * destruct (cfg_type config) as [t|]; [|discriminate].
        destruct (_ && _); discriminate.
    + split; reflexivity.
  - reflexivity.
  - unfold option_. change (notRun (PString "run")) with false. cbv iota.
    rewrite class_instanceOf_other by discriminate. cbn [negb].
    unfold wrongClass. rewrite constructorOf_class. reflexivity.
Qed.

End OptionGuards.

Lemma option_wrong_method_witness :
  option_ (Examples.allOfType Cls.String) "reason" emptyConfig
    (Proto Examples.Ping) (PSymbol "iterator") 0 ∅
  = inl (newError
           "The @option() decorator can only be used on the .run method. You used it on Symbol(iterator)").
Proof.
  apply (option_wrong_method (Examples.allOfType Cls.String) "reason" emptyConfig
           (Proto Examples.Ping) (PSymbol "iterator") 0 ∅).
  discriminate.
Defined.

Lemma option_wrong_class_witness :
  option_ (Examples.allOfType Cls.String) "reason" emptyConfig
    (Proto Cls.Date) (PString "run") 0 ∅
  = inl (newError
           "You can only use @option() on a class extending Command! You used Date").
Proof.
  apply (proj2 (proj1 (option_wrong_class (Examples.allOfType Cls.String) "reason"
                         emptyConfig Cls.Date 0 ∅))).
  reflexivity.
Defined.

(** ** What [option] records *)

Lemma notRun_false (property : PropertyKey) :
  notRun property = false -> property = PString "run".
Proof.
  destruct property as [s|d]; simpl; [|discriminate].
  destruct (String.eqb_spec s "run") as [->|Hne]; [reflexivity|discriminate].
Qed.

Section OptionRecords.

Variable getParamType : JsObject -> nat -> JsValue.

Abbreviation attach' := (option_ getParamType).

(** When the decorator returns, both guards held, the switch chose a
    kind, and the store returned is the old one with one descriptor
    added. *)
Lemma option_returns (name : string) (config : OptionConfig) (target : JsObject)
    (property : PropertyKey) (index : nat) (store store' : Store) :
  attach' name config target property index store = inr store' ->
  exists k,
    property = PString "run"
    /\ instanceOf (Obj target) Cls.Command = true
    /\ chooseType (getParamType target index) config = inr k
    /\ (forceOn config = false -> forall t, cfg_type config = Some t -> t = k)
    /\ store' = addOption target (mkOptionMetadata name index (withType k config)) store.
Proof.
  unfold option_. destruct (notRun property) eqn:Hp; [discriminate|].
  apply notRun_false in Hp.
  destruct (instanceOf (Obj target) Cls.Command) eqn:Hc; [|discriminate].
  cbn [negb]. destruct (chooseType _ _) as [e|k] eqn:Hk; [discriminate|].
  intros H. exists k. repeat (split; [assumption || reflexivity|]).
  destruct (cfg_type config) as [t|] eqn:Ht.
  - rewrite literal_truthy in H. cbn [andb] in H.
    destruct (bool_decide (k ≠ t)) eqn:Hne; cbn [andb] in H.
    + destruct (forceOn config) eqn:Hf; [|discriminate]. cbn [negb] in H.
      split; [discriminate|congruence].
    + apply bool_decide_eq_false in Hne. apply dec_stable in Hne.
      split; [intros _ t' [= <-]; congruence|congruence].
  - split; [intros _ t' [=]|congruence].
Qed.

(** X3. A successful attachment changes the entry of its target only,
    and only by appending one descriptor: the given name and index, the
    config with its [type] set to the kind chosen. That kind is one of
    the seven the switch can produce, and unless [force] is on it is the
    [config.type] that was given, when one was given. *)
Theorem option_success (name : string) (config : OptionConfig) (target : JsObject)
    (property : PropertyKey) (index : nat) (store store' : Store) :
  attach' name config target property index store = inr store' ->
  exists k,
    k ∈ [STRING; BOOLEAN; NUMBER; INTEGER; ROLE; USER; CHANNEL]
    /\ entry store' target
       = entry store target ++ [mkOptionMetadata name index (withType k config)]
    /\ (forall other, other ≠ target -> store' !! other = store !! other)
    /\ (forceOn config = false -> forall t, cfg_type config = Some t -> t = k).
Proof.
  intros H. apply option_returns in H.
  destruct H as (k & _ & _ & Hk & Hagree & ->).
  exists k. split; [exact (chooseType_kind _ _ _ Hk)|].
  split; [apply entry_addOption|]. split; [|exact Hagree].
  intros other Hne. unfold addOption. apply lookup_insert_ne. congruence.
Qed.

(** X4. A [config.type] the switch cannot produce ([MENTIONABLE] and the
    two [SUB_] literals) makes every attachment without [force] throw;
    with [force] the attachment may return, and then the kind recorded
    is not the one asked for. *)
Theorem option_kind_never_inferred (name : string) (config : OptionConfig)
    (target : JsObject) (property : PropertyKey) (index : nat) (store : Store)
    (t : ApplicationCommandOptionType) :
  cfg_type config = Some t ->
  t ∈ [MENTIONABLE; SUB_COMMAND; SUB_COMMAND_GROUP] ->
  (forceOn config = false ->
   exists e, attach' name config target property index store = inl e)
  /\ (forall store',
        attach' name config target property index store = inr store' ->
        forceOn config = true
        /\ exists o, last (entry store' target) = Some o
                     /\ om_name o = name /\ om_index o = index
                     /\ cfg_type (om_config o) ≠ Some t).
Proof.
  intros Ht Hin.
  assert (Hno : forall store',
             attach' name config target property index store = inr store' ->
             exists k, k ≠ t
                       /\ (forceOn config = false -> t = k)
                       /\ store' = addOption target
                                     (mkOptionMetadata name index (withType k config))
                                     store).
  { intros store' H. apply option_returns in H.
    destruct H as (k & _ & _ & Hk & Hagree & ->).
    exists k. split; [|split; [|reflexivity]].
    - apply chooseType_kind in Hk. intros ->.
      repeat (apply elem_of_cons in Hin; destruct Hin as [->|Hin];
              [refute_by_decide Hk|]).
      apply elem_of_nil in Hin. contradiction.
    - intros Hf. apply (Hagree Hf t Ht). }
  split.
  - intros Hf.
    destruct (attach' name config target property index store) as [e|store'] eqn:E;
      [exists e; reflexivity|].
    destruct (Hno store' eq_refl) as (k & Hne & Hagree & _).
    exfalso. apply Hne. symmetry. apply Hagree, Hf.
  - intros store' H. destruct (Hno store' H) as (k & Hne & Hagree & ->).
    split.
    + destruct (forceOn config); [reflexivity|].
      exfalso. apply Hne. symmetry. apply Hagree. reflexivity.
    + exists (mkOptionMetadata name index (withType k config)).
      rewrite entry_addOption, last_snoc. repeat split. simpl. congruence.
Qed.

(** X5. Two attachments to one target that both return leave the entry
    of the target extended by their two descriptors, in the order the
    decorators ran. *)
Theorem option_twice (nameA nameB : string) (configA configB : OptionConfig)
    (target : JsObject) (propertyA propertyB : PropertyKey)
    (indexA indexB : nat) (store s1 s2 : Store) :
  attach' nameA configA target propertyA indexA store = inr s1 ->
  attach' nameB configB target propertyB indexB s1 = inr s2 ->
  om_index <$> entry s2 target = (om_index <$> entry store target) ++ [indexA; indexB]
  /\ om_name <$> entry s2 target = (om_name <$> entry store target) ++ [nameA; nameB]
  /\ (forall other, other ≠ target -> s2 !! other = store !! other).
Proof.
  intros HA HB. apply option_returns in HA, HB.
  destruct HA as (kA & _ & _ & _ & _ & ->).
  destruct HB as (kB & _ & _ & _ & _ & ->).
  rewrite !entry_addOption, <- !app_assoc, !fmap_app. simpl.
  repeat split.
  intros other Hne. unfold addOption.
  rewrite !lookup_insert_ne by congruence. reflexivity.
Qed.

(** X6. Past the guards, "Unsupported data type." is thrown exactly when
    the declared type on record is no function at all: every class,
    whatever it is, is taken by an earlier case or by the channel
    case. *)
Theorem option_unsupported_iff (name : string) (config : OptionConfig)
    (target : JsObject) (index : nat) (store : Store) :
  instanceOf (Obj target) Cls.Command = true ->
  attach' name config target (PString "run") index store
  = inl (newTypeError "Unsupported data type.")
  <-> instanceOf (getParamType target index) Function = false.
Proof.
  intros Hc. rewrite option_on_run by assumption.
  set (type := getParamType target index). split.
  - intros H. destruct (instanceOf type Function) eqn:Hf; [|reflexivity].
    exfalso. revert H. unfold chooseType.
    rewrite constructorOf_class, Hf.
    repeat (match goal with
            | |- context [if ?b then _ else _] => destruct b
            | |- context [match cfg_type ?x with _ => _ end] => destruct (cfg_type x)
            end; try discriminate);
      intros [= H]; cbn in H; discriminate H.
  - intros Hf.
    assert (Hno : forall C, isClass type C = false).
    { intros C. apply bool_decide_eq_false. intros E.
      rewrite E, class_instanceOf_Function in Hf. discriminate. }
    unfold chooseType. rewrite !Hno, constructorOf_class, Hf. reflexivity.
Qed.

End OptionRecords.

Lemma option_success_witness :
  exists k,
    k ∈ [STRING; BOOLEAN; NUMBER; INTEGER; ROLE; USER; CHANNEL]
    /\ entry (addOption (Proto Examples.Ping)
                (mkOptionMetadata "who" 0 (withType USER (Examples.typed USER))) ∅)
         (Proto Examples.Ping)
       = entry ∅ (Proto Examples.Ping)
         ++ [mkOptionMetadata "who" 0 (withType k (Examples.typed USER))]
    /\ (forall other, other ≠ Proto Examples.Ping ->
        addOption (Proto Examples.Ping)
          (mkOptionMetadata "who" 0 (withType USER (Examples.typed USER))) ∅
        !! other = (∅ : Store) !! other)
    /\ (forceOn (Examples.typed USER) = false ->
        forall t, cfg_type (Examples.typed USER) = Some t -> t = k).
Proof.
  exact (option_success (Examples.allOfType Cls.GuildMember) "who"
           (Examples.typed USER) (Proto Examples.Ping) (PString "run") 0 ∅
           (addOption (Proto Examples.Ping)
              (mkOptionMetadata "who" 0 (withType USER (Examples.typed USER))) ∅)
           eq_refl).
Defined.

Lemma option_kind_never_inferred_witness :
  (exists e,
      option_ (Examples.allOfType Cls.User) "who" (Examples.typed MENTIONABLE)
        (Proto Examples.Ping) (PString "run") 0 ∅ = inl e)
  /\ exists o,
       last (entry (addOption (Proto Examples.Ping)
                      (mkOptionMetadata "who" 0
                         (withType USER (Examples.typedForced MENTIONABLE))) ∅)
               (Proto Examples.Ping)) = Some o
       /\ om_name o = "who" /\ om_index o = 0
       /\ cfg_type (om_config o) ≠ Some MENTIONABLE.
Proof.
  split.
  - refine (proj1 (option_kind_never_inferred (Examples.allOfType Cls.User) "who"
                     (Examples.typed MENTIONABLE) (Proto Examples.Ping)
                     (PString "run") 0 ∅ MENTIONABLE eq_refl _) eq_refl).
    apply list_elem_of_here.
  - refine (proj2 (proj2 (option_kind_never_inferred (Examples.allOfType Cls.User)
                     "who" (Examples.typedForced MENTIONABLE) (Proto Examples.Ping)
                     (PString "run") 0 ∅ MENTIONABLE eq_refl _) _ eq_refl)).
    apply list_elem_of_here.
Defined.

Lemma option_twice_witness :
  om_index
    <$> entry (addOption (Proto Examples.Ping)
                 (mkOptionMetadata "reason" 0 (withType STRING emptyConfig))
                 (addOption (Proto Examples.Ping)
                    (mkOptionMetadata "times" 1
                       (withType INTEGER (Examples.typed INTEGER))) ∅))
          (Proto Examples.Ping)
  = [1; 0].
Proof.
  refine (proj1 (option_twice
                   (fun _ index =>
                      match index with
                      | 0 => Obj (Ctor Cls.String)
                      | _ => Obj (Ctor Cls.Number)
                      end)
                   "times" "reason" (Examples.typed INTEGER) emptyConfig
                   (Proto Examples.Ping) (PString "run") (PString "run") 1 0
                   ∅ _ _ eq_refl eq_refl)).
Defined.

Lemma option_unsupported_iff_witness :
  option_ (fun _ _ => Undefined) "reason" (Examples.typedForced STRING)
    (Proto Examples.Ping) (PString "run") 0 ∅
  = inl (newTypeError "Unsupported data type.").
Proof.
  apply (option_unsupported_iff (fun _ _ => Undefined) "reason"
           (Examples.typedForced STRING) (Proto Examples.Ping) 0 ∅ eq_refl).
  reflexivity.
Defined.

(** ** [data] *)

(** X7. [data] hands the metadata [{name, description, ...config}] to
    [addCommandData] exactly for the classes declared below [Command];
    for every other class, [Command] itself among them, it throws the
    [TypeError] and the store is not touched. *)
Theorem data_below_Command_only (ClassStore : Type)
    (addCommandData : JsObject -> CommandMetadata -> ClassStore -> ClassStore)
    (name description : string) (config : CommandConfig) (target : Class)
    (store : ClassStore) :
  data ClassStore addCommandData name description config target store
  = (if below Cls.Command target
     then inr (addCommandData (Ctor target)
                 (mkCommandMetadata name description (cc_defaultPermission config))
                 store)
     else inl (newTypeError
                 "You can only use @name() on a class that extends Command!"))
  /\ data ClassStore addCommandData name description config Cls.Command store
     = inl (newTypeError
              "You can only use @name() on a class that extends Command!").
Proof.
  unfold data. rewrite instanceOf_prototype by discriminate.
  split; [destruct (below Cls.Command target)|]; reflexivity.
Qed.

(** ** [login], whatever the arrays are shared by *)

Lemma mapCommands_names (values : list ParsedCommand) (h : Heap) :
  acd_name <$> snd (mapCommands values h) = pc_name <$> values.
Proof.
  revert h. induction values as [|command rest IH]; intros h; [reflexivity|].
  rewrite mapCommands_cons. cbn [snd]. rewrite !fmap_cons, IH. reflexivity.
Qed.

(** X8. One [login] reverses an array once for every registry entry that
    refers to it: afterwards the array is reversed when that number is
    odd and as it was when it is even (zero included). In either case
    it holds the same options as before. *)
Theorem login_reverses_once_per_entry (this : Mammot) (h : Heap) (r : Ref) :
  array (fst (login this h)) r
  = (if Nat.even (length (filter (fun command => pc_options command = r)
                            (map_values (commands this))))
     then array h r
     else reverse (array h r))
  /\ array (fst (login this h)) r ≡ₚ array h r.
Proof.
  unfold login. rewrite mapCommands_parity.
  split; [reflexivity|].
  destruct (Nat.even _); [reflexivity|apply reverse_Permutation].
Qed.

(** X9. Two [login] calls in a row leave every array as it was, shared
    or not. *)
Theorem login_twice_restores (this : Mammot) (h : Heap) (r : Ref) :
  array (fst (login this (fst (login this h)))) r = array h r.
Proof.
  unfold login. rewrite !mapCommands_parity.
  destruct (Nat.even _); [reflexivity|apply reverse_involutive].
Qed.

(** ** [addCommands], beyond the last write *)

Lemma map_set_Forall {V : Type} (P : string * V -> Prop) (k : string) (v : V)
    (m : JsMap V) :
  P (k, v) -> Forall P m -> Forall P (map_set k v m).
Proof.
  intros Hkv. induction 1 as [|[k' v'] m Hx Hm IH]; simpl.
  - repeat constructor. exact Hkv.
  - destruct (String.eqb k k'); constructor; assumption.
Qed.

Lemma map_set_keys_prefix {V : Type} (k : string) (v : V) (m : JsMap V) :
  map_keys m `prefix_of` map_keys (map_set k v m).
Proof.
  rewrite map_keys_set. case_bool_decide; [reflexivity|].
  apply prefix_app_r. reflexivity.
Qed.

Lemma map_set_length {V : Type} (k : string) (v : V) (m : JsMap V) :
  length (map_set k v m) <= S (length m).
Proof.
  induction m as [|[k' v'] m IH]; simpl; [lia|].
  destruct (String.eqb k k'); simpl; lia.
Qed.

Section RegistryLifetime.

Variable readCommand : Command -> Throws CommandData.

Abbreviation enrol := (register readCommand).

(** The loop writes to the registry and to nothing else. *)
Lemma register_frame (mapped : list Command) (this : Mammot) :
  developmentGuildId (fst (enrol mapped this)) = developmentGuildId this
  /\ fallbackError (fst (enrol mapped this)) = fallbackError this
  /\ isDev (fst (enrol mapped this)) = isDev this.
Proof.
  revert this. induction mapped as [|c mapped IH]; intros this; [repeat split|].
  simpl. destruct (readCommand c) as [e|data]; [repeat split|].
  destruct (IH (setCommands
                  (map_set (cd_name data) (parsed c data) (commands this)) this))
    as (-> & -> & ->).
  repeat split.
Qed.

Lemma register_keys_prefix (mapped : list Command) (this : Mammot) :
  map_keys (commands this) `prefix_of` map_keys (commands (fst (enrol mapped this))).
Proof.
  revert this. induction mapped as [|c mapped IH]; intros this; [reflexivity|].
  simpl. destruct (readCommand c) as [e|data]; [reflexivity|].
  etransitivity; [|apply IH]. simpl. apply map_set_keys_prefix.
Qed.

Lemma register_length (mapped : list Command) (this : Mammot) :
  length (commands (fst (enrol mapped this)))
  <= length (commands this) + length mapped.
Proof.
  revert this. induction mapped as [|c mapped IH]; intros this; simpl; [lia|].
  destruct (readCommand c) as [e|data]; [simpl; lia|].
  etransitivity; [apply IH|]. simpl.
  pose proof (map_set_length (cd_name data) (parsed c data) (commands this)). lia.
Qed.

(** Every entry is filed under the name it carries. *)
Lemma register_named (mapped : list Command) (this : Mammot) :
  Forall (fun e => pc_name e.2 = e.1) (commands this) ->
  Forall (fun e => pc_name e.2 = e.1) (commands (fst (enrol mapped this))).
Proof.
  revert this. induction mapped as [|c mapped IH]; intros this H; [exact H|].
  simpl. destruct (readCommand c) as [e|data]; [exact H|].
  apply IH. simpl. apply map_set_Forall; [reflexivity|exact H].
Qed.

Lemma construct_length (this : Mammot) (cmds : list ConstructableCommand)
    (mapped : list Command) :
  construct this cmds = inr mapped -> length mapped = length cmds.
Proof.
  revert mapped. induction cmds as [|Cmd rest IH]; intros mapped; simpl.
  - intros [= <-]. reflexivity.
  - destruct (Cmd this) as [e|command]; [discriminate|].
    destruct (construct this rest) as [e|more]; [discriminate|].
    intros [= <-]. simpl. f_equal. apply IH. reflexivity.
Qed.

Lemma construct_throws (this : Mammot) (pre post : list ConstructableCommand)
    (Cmd : ConstructableCommand) (built_pre : list Command) (e : JsValue) :
  construct this pre = inr built_pre -> Cmd this = inl e ->
  construct this (pre ++ Cmd :: post) = inl e.
Proof.
  revert built_pre. induction pre as [|C pre IH]; intros built_pre; simpl.
  - intros _ ->. reflexivity.
  - destruct (C this) as [e'|command]; [discriminate|].
    destruct (construct this pre) as [e'|more]; [discriminate|].
    intros _ He. rewrite (IH more eq_refl He). reflexivity.
Qed.

Lemma built_invariant (this : Mammot) :
  built readCommand this ->
  NoDup (map_keys (commands this))
  /\ Forall (fun e => pc_name e.2 = e.1) (commands this).
Proof.
  induction 1 as [options env|cmds this Hb [IHk IHn]].
  - split; constructor.
  - unfold addCommands. destruct (construct this cmds) as [e|mapped].
    + split; assumption.
    + split; [apply register_NoDup, IHk|apply register_named, IHn].
Qed.

(** X10. For a client made by [Mammot.client] and extended by any
    [addCommands] calls, the entries [login] builds carry the keys of
    the registry as their names, in registry order, and no name
    twice. *)
Theorem login_names_distinct (this : Mammot) (h : Heap) :
  built readCommand this ->
  acd_name <$> snd (login this h) = map_keys (commands this)
  /\ NoDup (acd_name <$> snd (login this h)).
Proof.
  intros Hb. apply built_invariant in Hb. destruct Hb as [Hk Hn].
  assert (E : acd_name <$> snd (login this h) = map_keys (commands this)).
  { unfold login. rewrite mapCommands_names. unfold map_values, map_keys.
    rewrite <- list_fmap_compose. apply Forall_fmap_ext_1.
    eapply Forall_impl; [exact Hn|]. intros [k pc] H. exact H. }
  split; [exact E|]. rewrite E. exact Hk.
Qed.

(** X11. When a constructor throws, [addCommands] throws that value and
    the client is as it was: nothing is read and nothing registered,
    neither for the classes before the failing one nor for those
    after. *)
Theorem addCommands_constructor_throws (pre post : list ConstructableCommand)
    (Cmd : ConstructableCommand) (built_pre : list Command) (e : JsValue)
    (this : Mammot) :
  construct this pre = inr built_pre ->
  Cmd this = inl e ->
  addCommands readCommand (pre ++ Cmd :: post) this = (this, Some e).
Proof.
  intros Hpre He. unfold addCommands.
  rewrite (construct_throws this pre post Cmd built_pre e Hpre He). reflexivity.
Qed.

(** X12. When [readCommand] throws for a command, [addCommands] throws
    that value after the commands before it were registered: the
    registry is what registering those alone gives, and a name carried
    by none of them keeps the entry it had, so the commands after the
    failing one are constructed but not registered. *)
Theorem addCommands_stops_at_unreadable (cmds : list ConstructableCommand)
    (pre post : list Command) (c : Command) (e : JsValue) (this : Mammot) :
  construct this cmds = inr (pre ++ c :: post) ->
  readable readCommand pre ->
  readCommand c = inl e ->
  addCommands readCommand cmds this = (fst (enrol pre this), Some e)
  /\ (forall n,
        (forall c' data, c' ∈ pre -> readCommand c' = inr data -> cd_name data ≠ n) ->
        map_get n (commands (fst (addCommands readCommand cmds this)))
        = map_get n (commands this))
  /\ (forall before p after data,
        pre = before ++ p :: after ->
        readCommand p = inr data ->
        (forall c' data',
            c' ∈ after -> readCommand c' = inr data' ->
            cd_name data' ≠ cd_name data) ->
        map_get (cd_name data) (commands (fst (addCommands readCommand cmds this)))
        = Some (parsed p data)).
Proof.
  intros Hc Hr He.
  assert (E : addCommands readCommand cmds this = (fst (enrol pre this), Some e)).
  { unfold addCommands. rewrite Hc, register_app by assumption.
    simpl. rewrite He. reflexivity. }
  split; [exact E|]. rewrite E. cbn [fst]. split.
  - intros n Hn. apply register_other_name, Hn.
  - intros before p after data -> Hd Hafter.
    rewrite register_app.
    + simpl. rewrite Hd. rewrite register_other_name by exact Hafter.
      simpl. apply map_get_set_eq.
    + intros c' Hc'. apply Hr, elem_of_app. left. exact Hc'.
Qed.

(** X13. [addCommands] never moves or removes an entry: the keys the
    registry had stay where they were, at the front and in their order,
    whether or not the call throws; at most one entry is added per
    class; and the guild, the fallback message and the mode of the
    client are not touched. *)
Theorem addCommands_keeps_entries (cmds : list ConstructableCommand) (this : Mammot) :
  let after := fst (addCommands readCommand cmds this) in
  map_keys (commands this) `prefix_of` map_keys (commands after)
  /\ length (commands after) <= length (commands this) + length cmds
  /\ developmentGuildId after = developmentGuildId this
  /\ fallbackError after = fallbackError this
  /\ isDev after = isDev this.
Proof.
  unfold addCommands. destruct (construct this cmds) as [e|mapped] eqn:Hc; simpl.
  - repeat split; [reflexivity|lia].
  - split; [apply register_keys_prefix|]. split; [|apply register_frame].
    rewrite <- (construct_length this cmds mapped Hc). apply register_length.
Qed.

End RegistryLifetime.

Lemma login_names_distinct_witness :
  acd_name
    <$> snd (login
               (fst (addCommands Examples.readPing
                       [fun _ => inr Examples.quiet; fun _ => inr Examples.refusing]
                       (client (mkMammotOptions "guild" None None) None)))
               Examples.heap0)
  = ["ping"].
Proof.
  refine (proj1 (login_names_distinct Examples.readPing _ Examples.heap0 _)).
  apply built_addCommands, built_client.
Defined.

Lemma addCommands_constructor_throws_witness :
  addCommands Examples.readPing
    [fun _ => inr Examples.quiet; fun _ => inl (newError "no database")]
    (Examples.client Examples.failing None)
  = (Examples.client Examples.failing None, Some (newError "no database")).
Proof.
  exact (addCommands_constructor_throws Examples.readPing
           [fun _ => inr Examples.quiet] []
           (fun _ => inl (newError "no database")) [Examples.quiet]
           (newError "no database") (Examples.client Examples.failing None)
           eq_refl eq_refl).
Defined.

Lemma addCommands_stops_at_unreadable_witness :
  let reader := fun c : Command =>
    match snd (run c Examples.pingEvent []) with
    | None => inr (mkCommandData "quiet" "says nothing" 1)
    | Some e => inl e
    end in
  addCommands reader
    [fun _ => inr Examples.quiet; fun _ => inr Examples.failing;
     fun _ => inr Examples.quiet]
    (Examples.client Examples.failing None)
  = (mkMammot
       [("ping", mkParsedCommand "ping" "pong" Examples.failing 0);
        ("quiet", mkParsedCommand "quiet" "says nothing" Examples.quiet 1)]
       "guild" None true,
     Some (newTypeError "x is not a function")).
Proof.
  intros reader.
  refine (proj1 (addCommands_stops_at_unreadable reader
                   [fun _ => inr Examples.quiet; fun _ => inr Examples.failing;
                    fun _ => inr Examples.quiet]
                   [Examples.quiet] [Examples.quiet] Examples.failing
                   (newTypeError "x is not a function")
                   (Examples.client Examples.failing None) eq_refl _ eq_refl)).
  intros c Hc. apply list_elem_of_singleton in Hc. subst c.
  exists (mkCommandData "quiet" "says nothing" 1). reflexivity.
Defined.

(** ** The listeners, beyond a throwing handler *)

Section DispatchPaths.

Variable readCommand : Command -> Throws CommandData.
Variable resolveMetadata :
  Interaction -> list OptionMetadata -> Throws (list JsValue).

Abbreviation deliver := (interactionCreate resolveMetadata).

(** X14. When the handler resolves, the listener adds nothing of its
    own: no reply and no log entry beyond what the handler did. *)
Theorem handler_resolves_silently (this : Mammot) (h : Heap) (i : Interaction)
    (found : ParsedCommand) (args : list JsValue) (effects : list Effect) :
  isCommand i = true ->
  map_get (commandName i) (commands this) = Some found ->
  resolveMetadata i (array h (pc_options found)) = inr args ->
  run (pc_command found) i args = (effects, None) ->
  deliver this h i = (Called (pc_command found) i args :: (Did <$> effects), None).
Proof.
  intros Hc Hf Hr Hrun. unfold interactionCreate.
  rewrite Hc, Hf, Hr, Hrun. reflexivity.
Qed.

(** X15. When resolving the options throws, the handler is not called,
    and the value thrown is treated as one thrown by the handler: a
    [MammotError] is replied with its message; anything else is logged
    and replied with the non-empty fallback, or else with the generic
    text. *)
Theorem resolution_error_is_translated (this : Mammot) (h : Heap)
    (i : Interaction) (found : ParsedCommand) (error : JsValue) :
  isCommand i = true ->
  map_get (commandName i) (commands this) = Some found ->
  resolveMetadata i (array h (pc_options found)) = inl error ->
  (instanceOf error Cls.MammotError = true ->
   deliver this h i = ([Did (Reply true (messageOf error))], None))
  /\ (instanceOf error Cls.MammotError = false ->
      (forall fallback,
         fallbackError this = Some fallback -> fallback ≠ "" ->
         deliver this h i = ([Did (Warn error); Did (Reply true fallback)], None))
      /\ (fallbackError this = None \/ fallbackError this = Some "" ->
          deliver this h i
          = ([Did (Warn error); Did (Reply true "Something went wrong.")], None))).
Proof.
  intros Hc Hf Hr. unfold interactionCreate. rewrite Hc, Hf, Hr. cbn [negb].
  split; intros ->; [reflexivity|]. cbn [negb]. split.
  - intros fallback -> Hne. unfold truthy.
    destruct (String.eqb_spec fallback ""); [contradiction|reflexivity].
  - intros [->| ->]; reflexivity.
Qed.

(** X16. How an invocation is handled depends on the entry registered
    under its name, on the array that entry refers to and on the
    fallback message, and on nothing else: other entries and other
    arrays may differ. *)
Theorem dispatch_frame (this1 this2 : Mammot) (h1 h2 : Heap) (i : Interaction) :
  map_get (commandName i) (commands this1) = map_get (commandName i) (commands this2) ->
  fallbackError this1 = fallbackError this2 ->
  (forall found,
      map_get (commandName i) (commands this1) = Some found ->
      array h1 (pc_options found) = array h2 (pc_options found)) ->
  deliver this1 h1 i = deliver this2 h2 i.
Proof.
  intros Hg Hf Ha. unfold interactionCreate. rewrite <- Hg, <- Hf.
  destruct (map_get (commandName i) (commands this1)) as [found|];
    [|reflexivity].
  rewrite (Ha found eq_refl). reflexivity.
Qed.

(** X17. An interaction that is no command invocation is ignored even
    when its [commandName] is registered; and a client on which
    [addCommands] was never called ignores every interaction. *)
Theorem not_a_command_is_ignored (this : Mammot) (h : Heap) (i : Interaction)
    (options : MammotOptions) (NODE_ENV : option string) :
  (isCommand i = false -> deliver this h i = ([], None))
  /\ deliver (client options NODE_ENV) h i = ([], None).
Proof.
  unfold interactionCreate. split.
  - intros ->. reflexivity.
  - destruct (isCommand i); reflexivity.
Qed.

(** X18. After [addCommands], an invocation of a name reaches the
    handler of the last command of the list that carries the name, an
    earlier registration of the name notwithstanding, with the
    arguments resolved against that command's array. *)
Theorem dispatch_reaches_latest (cmds : list ConstructableCommand)
    (pre post : list Command) (c : Command) (data : CommandData)
    (this : Mammot) (h : Heap) (i : Interaction) (args : list JsValue) :
  construct this cmds = inr (pre ++ c :: post) ->
  readable readCommand pre ->
  readCommand c = inr data ->
  (forall c' data',
      c' ∈ post -> readCommand c' = inr data' -> cd_name data' ≠ cd_name data) ->
  isCommand i = true ->
  commandName i = cd_name data ->
  resolveMetadata i (array h (cd_options data)) = inr args ->
  exists rest,
    fst (deliver (fst (addCommands readCommand cmds this)) h i)
    = Called c i args :: (Did <$> fst (run c i args)) ++ rest.
Proof.
  intros Hc Hr Hd Hpost Hi Hn Hargs.
  assert (Hget : map_get (commandName i)
                   (commands (fst (addCommands readCommand cmds this)))
                 = Some (parsed c data)).
  { unfold addCommands. rewrite Hc, Hn, register_app by exact Hr.
    simpl. rewrite Hd. rewrite register_other_name by exact Hpost.
    simpl. apply map_get_set_eq. }
  unfold interactionCreate. rewrite Hi, Hget. cbn [negb parsed pc_options pc_command].
  rewrite Hargs. destruct (run c i args) as [effects [error|]]; cbn [fst].
  - eexists. rewrite <- app_comm_cons. reflexivity.
  - exists []. rewrite app_nil_r. reflexivity.
Qed.

(** X19. The scope of the schema sync is fixed when the client is made
    and survives [addCommands]: an explicit [dev] decides, also against
    the environment; without one, the sync goes to the development
    guild exactly when [NODE_ENV] is [development]. [options.ready] is
    called after a sync that resolved, and not at all after one that
    rejected, in which case the listener rejects with the reason of the
    sync. *)
Theorem sync_scope
    (commandsSet : list ApplicationCommandData -> option Snowflake -> option JsValue)
    (optionsReady : option JsValue)
    (options : MammotOptions) (NODE_ENV : option string)
    (cmds : list ConstructableCommand) (mapped : list ApplicationCommandData) :
  let this := fst (addCommands readCommand cmds (client options NODE_ENV)) in
  let scope :=
    match dev options with
    | Some true => Some (developmentGuild options)
    | Some false => None
    | None =>
        if bool_decide (NODE_ENV = Some "development")
        then Some (developmentGuild options) else None
    end in
  ready commandsSet optionsReady this mapped
  = match commandsSet mapped scope with
    | Some reason => ([CommandsSet mapped scope], Some reason)
    | None => ([CommandsSet mapped scope; ReadyCallback], optionsReady)
    end
  /\ fallbackError this = opt_fallbackError options.
Proof.
  intros this scope. subst this.
  assert (F : forall base : Mammot,
             developmentGuildId (fst (addCommands readCommand cmds base))
             = developmentGuildId base
             /\ fallbackError (fst (addCommands readCommand cmds base))
                = fallbackError base
             /\ isDev (fst (addCommands readCommand cmds base)) = isDev base).
  { intros base. unfold addCommands.
    destruct (construct base cmds) as [e|built_all]; [repeat split|].
    apply register_frame. }
  destruct (F (client options NODE_ENV)) as (Hg & Hf & Hd).
  split; [|rewrite Hf; reflexivity].
  unfold ready. rewrite Hg, Hd. subst scope. unfold client. simpl.
  destruct (dev options) as [[|]|]; [reflexivity|reflexivity|].
  destruct NODE_ENV as [v|]; [|reflexivity].
  destruct (String.eqb_spec v "development") as [->|Hne].
  - reflexivity.
  - rewrite bool_decide_eq_false_2 by congruence. reflexivity.
Qed.

End DispatchPaths.

Lemma sync_scope_witness :
  ready Examples.syncRejects None
    (fst (addCommands Examples.readPing [fun _ => inr Examples.quiet]
            (client (mkMammotOptions "guild" None (Some true)) (Some "production"))))
    []
  = ([CommandsSet [] (Some "guild")], Some (newError "Missing Access"))
  /\ ready Examples.syncResolves None
       (fst (addCommands Examples.readPing [fun _ => inr Examples.quiet]
               (client (mkMammotOptions "guild" None (Some false))
                  (Some "development"))))
       []
     = ([CommandsSet [] None; ReadyCallback], None).
Proof.
  split.
  - exact (proj1 (sync_scope Examples.readPing Examples.syncRejects None
                    (mkMammotOptions "guild" None (Some true)) (Some "production")
                    [fun _ => inr Examples.quiet] [])).
  - exact (proj1 (sync_scope Examples.readPing Examples.syncResolves None
                    (mkMammotOptions "guild" None (Some false)) (Some "development")
                    [fun _ => inr Examples.quiet] [])).
Defined.

Lemma handler_resolves_silently_witness :
  interactionCreate Examples.resolveByName
    (Examples.client Examples.quiet (Some "Oops!")) Examples.heap0
    Examples.pingEvent
  = ([Called Examples.quiet Examples.pingEvent [Str "2"; Str "hi"]], None).
Proof.
  exact (handler_resolves_silently Examples.resolveByName
           (Examples.client Examples.quiet (Some "Oops!")) Examples.heap0
           Examples.pingEvent (mkParsedCommand "ping" "pong" Examples.quiet 0)
           [Str "2"; Str "hi"] [] eq_refl eq_refl eq_refl eq_refl).
Defined.

Lemma resolution_error_is_translated_witness :
  interactionCreate
    (fun _ _ => inl (Obj (Instance Cls.MammotError "Missing option reason")))
    (Examples.client Examples.quiet (Some "Oops!")) Examples.heap0
    Examples.pingEvent
  = ([Did (Reply true "Missing option reason")], None)
  /\ interactionCreate (fun _ _ => inl (Str "bad bag"))
       (Examples.client Examples.quiet (Some "Oops!")) Examples.heap0
       Examples.pingEvent
     = ([Did (Warn (Str "bad bag")); Did (Reply true "Oops!")], None).
Proof.
  split.
  - exact (proj1 (resolution_error_is_translated
                    (fun _ _ => inl (Obj (Instance Cls.MammotError
                                            "Missing option reason")))
                    (Examples.client Examples.quiet (Some "Oops!")) Examples.heap0
                    Examples.pingEvent
                    (mkParsedCommand "ping" "pong" Examples.quiet 0)
                    (Obj (Instance Cls.MammotError "Missing option reason"))
                    eq_refl eq_refl eq_refl) eq_refl).
  - refine (proj1 (proj2 (resolution_error_is_translated
                    (fun _ _ => inl (Str "bad bag"))
                    (Examples.client Examples.quiet (Some "Oops!")) Examples.heap0
                    Examples.pingEvent
                    (mkParsedCommand "ping" "pong" Examples.quiet 0)
                    (Str "bad bag") eq_refl eq_refl eq_refl) eq_refl)
              "Oops!" eq_refl _).
    discriminate.
Defined.

Lemma dispatch_frame_witness :
  interactionCreate Examples.resolveByName
    (mkMammot [("ping", mkParsedCommand "ping" "pong" Examples.refusing 0);
               ("late", mkParsedCommand "late" "added later" Examples.failing 7)]
       "other guild" (Some "Oops!") false)
    (<[7 := Examples.collected]> Examples.heap0) Examples.pingEvent
  = interactionCreate Examples.resolveByName
      (Examples.client Examples.refusing (Some "Oops!")) Examples.heap0
      Examples.pingEvent.
Proof.
  apply dispatch_frame; [reflexivity|reflexivity|].
  intros found [= <-]. reflexivity.
Defined.

Lemma not_a_command_is_ignored_witness :
  interactionCreate Examples.resolveByName
    (Examples.client Examples.failing None) Examples.heap0
    (mkInteraction false "ping" [])
  = ([], None).
Proof.
  exact (proj1 (not_a_command_is_ignored Examples.resolveByName
                  (Examples.client Examples.failing None) Examples.heap0
                  (mkInteraction false "ping" [])
                  (mkMammotOptions "guild" None None) None) eq_refl).
Defined.

Lemma dispatch_reaches_latest_witness :
  exists rest,
    fst (interactionCreate Examples.resolveByName
           (fst (addCommands Examples.readPing
                   [fun _ => inr Examples.quiet; fun _ => inr Examples.refusing]
                   (Examples.client Examples.failing None)))
           Examples.heap0 Examples.pingEvent)
    = Called Examples.refusing Examples.pingEvent [Str "2"; Str "hi"]
        :: (Did <$> fst (run Examples.refusing Examples.pingEvent [Str "2"; Str "hi"]))
        ++ rest.
Proof.
  refine (dispatch_reaches_latest Examples.readPing Examples.resolveByName
            [fun _ => inr Examples.quiet; fun _ => inr Examples.refusing]
            [Examples.quiet] [] Examples.refusing (mkCommandData "ping" "pong" 0)
            (Examples.client Examples.failing None) Examples.heap0
            Examples.pingEvent [Str "2"; Str "hi"]
            eq_refl _ eq_refl _ eq_refl eq_refl eq_refl).
  - intros c _. exists (mkCommandData "ping" "pong" 0). reflexivity.
  - intros c' data' Hc'. apply elem_of_nil in Hc'. contradiction.
Defined.

(** ** [forced], when it returns *)

Section Forced.

Variable getParamType : JsObject -> nat -> JsValue.

(** X20. Whenever [option] returns for a config whose [force] is absent
    or false, [forced] returns for that config too, having chosen the
    same kind; the descriptor it records is the other one with [force]
    set to [true], every other key as it was. *)
Theorem forced_returns_where_option_does (name : string) (config : OptionConfig)
    (target : JsObject) (property : PropertyKey) (index : nat)
    (store store' : Store) :
  forceOn config = false ->
  option_ getParamType name config target property index store = inr store' ->
  exists k,
    store'
    = addOption target
        (mkOptionMetadata name index
           (mkOptionConfig (Some k) (cfg_force config) (cfg_name config)
              (cfg_description config) (cfg_required config)
              (cfg_choices config) (cfg_channelTypes config)))
        store
    /\ forced getParamType name config target property index store
       = inr (addOption target
                (mkOptionMetadata name index
                   (mkOptionConfig (Some k) (Some true) (cfg_name config)
                      (cfg_description config) (cfg_required config)
                      (cfg_choices config) (cfg_channelTypes config)))
                store).
Proof.
  intros Hoff H. apply option_returns in H.
  destruct H as (k & -> & Hc & Hk & _ & ->).
  exists k. split; [reflexivity|].
  unfold forced. rewrite option_on_run by assumption.
  rewrite chooseType_withForce, Hk.
  change (cfg_type (withForce true config)) with (cfg_type config).
  destruct (cfg_type config); [|reflexivity].
  rewrite forceOn_withForce, andb_false_r. reflexivity.
Qed.

(** X21. An option attached through [forced] is recorded with
    [force: true], and the entry [login] builds from it still carries
    [force: true]; its [name] is the name of the option, whatever name
    the config had, and its [type] is the kind chosen. *)
Theorem forced_flag_is_submitted (name : string) (config : OptionConfig)
    (target : JsObject) (property : PropertyKey) (index : nat)
    (store store' : Store) :
  forced getParamType name config target property index store = inr store' ->
  exists o k,
    last (entry store' target) = Some o
    /\ chooseType (getParamType target index) config = inr k
    /\ cfg_force (om_config o) = Some true
    /\ cfg_force (flatten o) = Some true
    /\ cfg_name (flatten o) = Some name
    /\ cfg_type (flatten o) = Some k.
Proof.
  intros H. unfold forced in H. apply option_returns in H.
  destruct H as (k & _ & _ & Hk & _ & ->).
  exists (mkOptionMetadata name index (withType k (withForce true config))), k.
  rewrite entry_addOption, last_snoc. repeat split. exact Hk.
Qed.

End Forced.

Lemma forced_returns_where_option_does_witness :
  exists k,
    addOption (Proto Examples.Ping)
      (mkOptionMetadata "who" 0 (withType USER (Examples.typed USER))) ∅
    = addOption (Proto Examples.Ping)
        (mkOptionMetadata "who" 0
           (mkOptionConfig (Some k) None None None None None None)) ∅
    /\ forced (Examples.allOfType Cls.User) "who" (Examples.typed USER)
         (Proto Examples.Ping) (PString "run") 0 ∅
       = inr (addOption (Proto Examples.Ping)
                (mkOptionMetadata "who" 0
                   (mkOptionConfig (Some k) (Some true) None None None None None)) ∅).
Proof.
  exact (forced_returns_where_option_does (Examples.allOfType Cls.User) "who"
           (Examples.typed USER) (Proto Examples.Ping) (PString "run") 0 ∅ _
           eq_refl eq_refl).
Defined.

Lemma forced_flag_is_submitted_witness :
  exists o k,
    last (entry (addOption (Proto Examples.Ping)
                   (mkOptionMetadata "who" 0
                      (withType USER
                         (withForce true
                            (withName "someone" (Examples.typed MENTIONABLE))))) ∅)
            (Proto Examples.Ping)) = Some o
    /\ chooseType (Obj (Ctor Cls.User))
         (withName "someone" (Examples.typed MENTIONABLE)) = inr k
    /\ cfg_force (om_config o) = Some true
    /\ cfg_force (flatten o) = Some true
    /\ cfg_name (flatten o) = Some "who"
    /\ cfg_type (flatten o) = Some k.
Proof.
  exact (forced_flag_is_submitted (Examples.allOfType Cls.User) "who"
           (withName "someone" (Examples.typed MENTIONABLE))
           (Proto Examples.Ping) (PString "run") 0 ∅ _ eq_refl).
Defined.
